(** * Orlando PD active-calls monitor: a shallow embedding of
    [orlando_pd_monitor.py] and the properties of its poll / dedup / notify
    loop.

    Python values are modelled as follows.
    - [str] is a sequence of Unicode code points ([pystr], a list of [N]);
      ASCII literals of the source are written [py "..."].
    - [int] is [Z]; [len(...)] results are [nat].
    - the [set] inside [NotificationTracker] is a [gset pystr].
    - an exception is a value of [exn]; a call that may raise returns an
      [outcome].
    - the network ([requests.get], [requests.post], [resend.Emails.send]) and
      [time.sleep] act on an explicit [World]: the replies of the network are
      given by a [Network] oracle that sees the history of effects so far, and
      every effect is appended to that history.
    - the standard-library functions the program calls but does not define
      (the XML parser, [datetime.strptime], the Unicode upper-case table) are
      the fields of the [Library] class.
    Logging is not modelled. Asynchronous interrupts ([KeyboardInterrupt]) are
    outside the model: every exception of [exn] is an [Exception]. *)

From Stdlib Require Import String Ascii.
From stdpp Require Import base gmap sets list.

#[local] Open Scope Z_scope.
#[local] Set Warnings "-register-all".

(** ** Strings *)

Module Str.

(** A Unicode code point. *)
Definition char := N.

(** A Python [str]. *)
Definition pystr := list char.

(** An ASCII literal of the source. *)
Definition py (s : string) : pystr :=
  (fun a => N_of_ascii a) <$> list_ascii_of_string s.

(** [str.isspace] of one code point: the code points Python treats as
    whitespace in [str.strip()]. *)
Definition is_space (c : char) : bool :=
  ((9 <=? c) && (c <=? 13) || (28 <=? c) && (c <=? 32)
   || (c =? 133) || (c =? 160) || (c =? 5760)
   || (8192 <=? c) && (c <=? 8202)
   || (c =? 8232) || (c =? 8233) || (c =? 8239) || (c =? 8287)
   || (c =? 12288))%N.

Fixpoint lstrip (s : pystr) : pystr :=
  match s with
  | c :: s' => if is_space c then lstrip s' else s
  | [] => []
  end.

Definition rstrip (s : pystr) : pystr := reverse (lstrip (reverse s)).

(** [s.strip()] *)
Definition strip (s : pystr) : pystr := rstrip (lstrip s).

(** [s.startswith(p)] *)
Fixpoint startswith (s p : pystr) : bool :=
  match p, s with
  | [], _ => true
  | _ :: _, [] => false
  | a :: p', b :: s' => (a =? b)%N && startswith s' p'
  end.

(** [needle in hay] for two strings: substring test. *)
Fixpoint str_in (needle hay : pystr) : bool :=
  startswith hay needle ||
  match hay with
  | [] => false
  | _ :: hay' => str_in needle hay'
  end.

(** [s.split(sep)] for a one-character separator. *)
Fixpoint split (sep : char) (s : pystr) : list pystr :=
  match s with
  | [] => [[]]
  | c :: s' =>
      if (c =? sep)%N then [] :: split sep s'
      else match split sep s' with
           | w :: ws => (c :: w) :: ws
           | [] => [[c]]
           end
  end.

(** Truthiness of a string: non-empty. *)
Definition truthy (s : pystr) : bool :=
  match s with [] => false | _ :: _ => true end.

(** Truthiness of an [Optional[str]]. *)
Definition truthy_opt (o : option pystr) : bool :=
  match o with Some s => truthy s | None => false end.

End Str.
Export Str.

(** ** Exceptions *)

(** The exception classes the program distinguishes in its [except] clauses.
    [Timeout], [ConnectionError] and [HTTPError] are subclasses of
    [requests.exceptions.RequestException]; all are subclasses of
    [Exception]. [OverflowError] and [OSError] are what [time.sleep] raises
    besides [ValueError]; a plain [OSError] is no [RequestException]. *)
Inductive exn :=
| Timeout
| ConnectionError
| HTTPError
| RequestException
| ParseError
| ValueError
| OverflowError
| OSError
| OtherException.

(** [isinstance(e, requests.exceptions.RequestException)] *)
Definition is_request_exception (e : exn) : bool :=
  match e with
  | Timeout | ConnectionError | HTTPError | RequestException => true
  | ParseError | ValueError | OverflowError | OSError | OtherException => false
  end.

(** The result of a call that may raise. *)
Inductive outcome (A : Type) :=
| Returns (a : A)
| Raises (e : exn).
Arguments Returns {A} a.
Arguments Raises {A} e.

(** ** Library functions *)

Record datetime := {
  dt_year : Z; dt_month : Z; dt_day : Z; dt_hour : Z; dt_minute : Z
}.

(** An [xml.etree.ElementTree.Element]: tag, attribute dictionary, text
    ([None] when the element has no text before its first child) and
    children in document order. *)
Inductive Element :=
| mkElement (tag : pystr) (attrib : gmap pystr pystr)
            (text : option pystr) (children : list Element).

Definition tag (e : Element) : pystr :=
  match e with mkElement t _ _ _ => t end.
Definition attrib (e : Element) : gmap pystr pystr :=
  match e with mkElement _ a _ _ => a end.
Definition text (e : Element) : option pystr :=
  match e with mkElement _ _ x _ => x end.
Definition children (e : Element) : list Element :=
  match e with mkElement _ _ _ c => c end.

(** [e.findall(t)] for a plain tag name: the direct children with that
    tag, in document order. *)
Definition findall (t : pystr) (e : Element) : list Element :=
  filter (fun c => tag c = t) (children e).

(** [e.find(t)] for a plain tag name: the first direct child with that
    tag, [None] when there is none. *)
Definition find (t : pystr) (e : Element) : option Element :=
  head (findall t e).

(** [e.get(key, default)] *)
Definition get (key default : pystr) (e : Element) : pystr :=
  match attrib e !! key with
  | Some v => v
  | None => default
  end.

(** What the program takes from Python's libraries.
    - [unicode_upper c]: the full upper-case mapping of a non-ASCII code
      point ([str.upper] maps each code point on its own).
    - [strptime s]: [datetime.strptime(s, "%m/%d/%Y %H:%M")], [None] when it
      raises [ValueError].
    - [fromstring s]: [ET.fromstring(s)]. *)
Class Library := {
  unicode_upper : char -> pystr;
  strptime : pystr -> option datetime;
  fromstring : pystr -> outcome Element
}.

Section Upper.
Context {L : Library}.

Definition upper_char (c : char) : pystr :=
  if ((97 <=? c) && (c <=? 122))%N then [(c - 32)%N]
  else if (c <? 128)%N then [c]
  else unicode_upper c.

(** [s.upper()] *)
Definition upper (s : pystr) : pystr := s ≫= upper_char.
End Upper.

(** ** NotificationTracker *)

Record NotificationTracker := {
  notified_incidents : gset pystr
}.

(** [NotificationTracker()] *)
Definition NotificationTracker_init : NotificationTracker :=
  {| notified_incidents := ∅ |}.

Definition is_already_notified
  (self : NotificationTracker) (incident_number : pystr) : bool :=
  bool_decide (incident_number ∈ notified_incidents self).

Definition mark_as_notified
  (self : NotificationTracker) (incident_number : pystr) : NotificationTracker :=
  {| notified_incidents := {[incident_number]} ∪ notified_incidents self |}.

Definition get_notification_count (self : NotificationTracker) : nat :=
  size (notified_incidents self).

(** The three methods as operations, to speak about arbitrary sequences of
    calls on one tracker. *)
Inductive tracker_op :=
| OpIsAlreadyNotified (incident_number : pystr)
| OpMarkAsNotified (incident_number : pystr)
| OpGetNotificationCount.

Definition tracker_apply
  (self : NotificationTracker) (op : tracker_op) : NotificationTracker :=
  match op with
  | OpIsAlreadyNotified _ => self
  | OpMarkAsNotified i => mark_as_notified self i
  | OpGetNotificationCount => self
  end.

Definition tracker_run
  (self : NotificationTracker) (ops : list tracker_op) : NotificationTracker :=
  foldl tracker_apply self ops.

(** ** PoliceCall and Config *)

Record PoliceCall := {
  incident_number : pystr;
  datetime_str : pystr;
  call_type : pystr;
  location : pystr;
  district : pystr;
  parsed_datetime : option datetime
}.

Record Config := {
  ntfy_topic : pystr;
  search_term : pystr;
  poll_interval : Z;
  ntfy_url : pystr;
  resend_api_key : option pystr;
  email_from : option pystr;
  email_to : list pystr;
  email_enabled : bool
}.

Definition DEFAULT_POLL_INTERVAL : Z := 30.
Definition DEFAULT_SEARCH_TERM : pystr := py "FORELAND".

(** ** Effects *)

(** A [requests.Response], as far as the program looks at it: what its
    [raise_for_status()] does (it returns, or raises [HTTPError] when the
    status of the response is an error status; which statuses are errors is
    the library's matter) and its [text] attribute. *)
Record Response := {
  raise_for_status : outcome unit;
  response_text : pystr
}.

(** The effects of a run, in the order they happen.
    - [Fetch r]: [requests.get] on the feed returned or raised [r];
    - [Post call r]: [requests.post] of the notification for [call];
    - [EmailSkipped call]: [send_email_notification] was entered for [call]
      with the email channel disabled;
    - [EmailSend call r]: [resend.Emails.send] for [call]; [Returns None] is a
      reply without an ["id"] key;
    - [Sleep s]: [time.sleep(s)] ran. *)
Inductive event :=
| Fetch (r : outcome Response)
| Post (call : PoliceCall) (r : outcome Response)
| EmailSkipped (call : PoliceCall)
| EmailSend (call : PoliceCall) (r : outcome (option pystr))
| Sleep (seconds : Z).

(** The replies of the outside world; each may depend on everything that
    happened before. [clock_admits h s] says whether the platform's clock can
    hold the deadline of a sleep of [s] seconds begun after [h]; it is asked
    for very long sleeps only (see [time_sleep]). *)
Class Network := {
  requests_get : list event -> outcome Response;
  requests_post : list event -> PoliceCall -> outcome Response;
  resend_send : list event -> PoliceCall -> outcome (option pystr);
  clock_admits : list event -> Z -> bool
}.

(** The mutable state the functions share: the one tracker object and the
    history of effects. *)
Record World := {
  tracker : NotificationTracker;
  history : list event
}.

Definition record_event (w : World) (e : event) : World :=
  {| tracker := tracker w; history := history w ++ [e] |}.

(** The largest number of seconds whose nanoseconds fit the 64-bit
    timestamp [time.sleep] converts its argument to. *)
Definition TIMESTAMP_MAX_SECONDS : Z := 9223372036.

(** A length whose deadline fits the clock of any machine that has been up
    for less than 150 years. *)
Definition SLEEP_ALWAYS_ADMITTED : Z := 4294967296.

(** [time.sleep(seconds)] for an [int]. The length is first converted to
    nanoseconds ([OverflowError] beyond [TIMESTAMP_MAX_SECONDS], either
    sign), then a negative length is refused ([ValueError]). The platform
    then sleeps up to the deadline "now + seconds" and refuses ([OSError]) a
    deadline its clock cannot hold; the clock is not modelled, so for a
    length above [SLEEP_ALWAYS_ADMITTED] the world says whether the deadline
    fits. *)
Definition time_sleep `{Net : Network} (seconds : Z) (w : World)
  : outcome unit * World :=
  if (seconds <? - TIMESTAMP_MAX_SECONDS) || (TIMESTAMP_MAX_SECONDS <? seconds)
  then (Raises OverflowError, w)
  else if seconds <? 0 then (Raises ValueError, w)
  else if (seconds <=? SLEEP_ALWAYS_ADMITTED) || clock_admits (history w) seconds
  then (Returns tt, record_event w (Sleep seconds))
  else (Raises OSError, w).

Section Program.
Context {L : Library} {Net : Network}.

(** The dataclass constructor with its [__post_init__]. *)
Definition PoliceCall_init
  (incident_number datetime_str call_type location district : pystr)
  : PoliceCall :=
  {| incident_number := incident_number;
     datetime_str := datetime_str;
     call_type := call_type;
     location := location;
     district := district;
     parsed_datetime := strptime datetime_str |}.

(** [Config.__init__] *)
Definition Config_init
  (ntfy_topic search_term : pystr) (poll_interval : Z)
  (resend_api_key email_to email_from : option pystr) : Config :=
  let to :=
    if truthy_opt email_to
    then strip <$> filter (fun email => strip email <> [])
                          (split 44%N (default [] email_to))
    else [] in
  {| ntfy_topic := ntfy_topic;
     search_term := upper search_term;
     poll_interval := poll_interval;
     ntfy_url := py "https://ntfy.sh/" ++ ntfy_topic;
     resend_api_key := resend_api_key;
     email_from := email_from;
     email_to := to;
     email_enabled :=
       truthy_opt resend_api_key && bool_decide (to <> [])
       && truthy_opt email_from |}.

(** *** fetch_active_calls *)

(** Every [except] clause logs and re-raises. *)
Definition fetch_active_calls (w : World) : outcome pystr * World :=
  let r := requests_get (history w) in
  let w := record_event w (Fetch r) in
  match r with
  | Raises e => (Raises e, w)
  | Returns response =>
      match raise_for_status response with
      | Raises e => (Raises e, w)
      | Returns _ => (Returns (response_text response), w)
      end
  end.

(** *** parse_active_calls *)

Definition BOM : pystr := [65279%N].

(** The six-character literal of the second [startswith] test. *)
Definition BOM_ARTIFACT : pystr := [8730; 216; 172; 170; 172; 248]%N.

(** The BOM removal at the head of the [try] block. *)
Definition clean_data (raw_data : pystr) : pystr :=
  let clean_data := raw_data in
  let clean_data :=
    if startswith clean_data BOM then drop 1 clean_data else clean_data in
  let clean_data :=
    if startswith clean_data BOM_ARTIFACT then drop 3 clean_data
    else clean_data in
  clean_data.

(** [elem.text.strip() if elem.text else ''] *)
Definition text_of (elem : Element) : pystr :=
  match text elem with
  | Some t => if truthy t then strip t else []
  | None => []
  end.

(** One turn of the [for call_element in call_elements] loop on the list
    [calls] built so far. *)
Definition parse_call
  (calls : list PoliceCall) (call_element : Element) : list PoliceCall :=
  let incident_number := get (py "incident") [] call_element in
  match find (py "DATE") call_element, find (py "DESC") call_element,
        find (py "LOCATION") call_element, find (py "DISTRICT") call_element
  with
  | Some date_elem, Some desc_elem, Some location_elem, Some district_elem =>
      calls ++ [PoliceCall_init incident_number (text_of date_elem)
                  (text_of desc_elem) (text_of location_elem)
                  (text_of district_elem)]
  | _, _, _, _ => calls
  end.

Definition parse_calls (root : Element) : list PoliceCall :=
  foldl parse_call [] (findall (py "CALL") root).

(** Nothing after [ET.fromstring] can raise, so the list is still empty when
    either [except] clause runs. *)
Definition parse_active_calls (raw_data : pystr) : outcome (list PoliceCall) :=
  if negb (truthy (strip raw_data)) then Returns []
  else
    match fromstring (clean_data raw_data) with
    | Returns root => Returns (parse_calls root)
    | Raises ParseError => Returns []
    | Raises _ => Returns []
    end.

(** *** search_calls_by_location *)

Definition search_calls_by_location
  (calls : list PoliceCall) (search_term : pystr) : list PoliceCall :=
  match calls with
  | [] => []
  | _ :: _ =>
      let search_upper := upper search_term in
      foldl (fun matches call =>
               if str_in search_upper (upper (location call))
               then matches ++ [call] else matches)
            [] calls
  end.

(** *** send_notification *)

(** The URL, the body ([format_notification_message], which cannot raise)
    and the headers of the request are functions of the call and of the
    configuration, so the oracle is asked with the call. Each of the four
    [except] clauses logs and returns [False]. *)
Definition send_notification
  (call : PoliceCall) (config : Config) (w : World) : bool * World :=
  if is_already_notified (tracker w) (incident_number call) then (false, w)
  else
    let r := requests_post (history w) call in
    let w := record_event w (Post call r) in
    match r with
    | Raises Timeout => (false, w)
    | Raises ConnectionError => (false, w)
    | Raises HTTPError => (false, w)
    | Raises _ => (false, w)
    | Returns response =>
        match raise_for_status response with
        | Raises Timeout => (false, w)
        | Raises ConnectionError => (false, w)
        | Raises HTTPError => (false, w)
        | Raises _ => (false, w)
        | Returns _ =>
            (true,
             {| tracker := mark_as_notified (tracker w) (incident_number call);
                history := history w |})
        end
    end.

(** *** send_email_notification *)

(** Reading [response['id']] raises [KeyError] when the key is absent; the
    single [except Exception] clause returns [False]. *)
Definition send_email_notification
  (call : PoliceCall) (config : Config) (w : World) : bool * World :=
  if negb (email_enabled config) then (false, record_event w (EmailSkipped call))
  else
    let r := resend_send (history w) call in
    let w := record_event w (EmailSend call r) in
    match r with
    | Returns (Some _) => (true, w)
    | Returns None => (false, w)
    | Raises _ => (false, w)
    end.

(** *** process_and_notify_matches *)

(** One turn of the [for call in matching_calls] loop. Neither channel
    raises, so the [except Exception] clause of the loop body never runs. *)
Definition notify_call
  (config : Config) (acc : nat * World) (call : PoliceCall) : nat * World :=
  let '(notifications_sent, w) := acc in
  let '(ntfy_success, w) := send_notification call config w in
  let '(email_success, w) :=
    if ntfy_success then send_email_notification call config w
    else (false, w) in
  if ntfy_success then (S notifications_sent, w) else (notifications_sent, w).

Definition process_and_notify_matches
  (matching_calls : list PoliceCall) (config : Config) (w : World)
  : nat * World :=
  match matching_calls with
  | [] => (0%nat, w)
  | _ :: _ => foldl (notify_call config) (0%nat, w) matching_calls
  end.

(** *** monitor_loop *)

Definition max_consecutive_errors : Z := 5.

(** [min(300, 30 * (2 ** (consecutive_errors - 1)))] *)
Definition backoff_time (consecutive_errors : Z) : Z :=
  Z.min 300 (30 * 2 ^ (consecutive_errors - 1)).

(** The local variables of [monitor_loop]. *)
Record LoopState := {
  loop_count : Z;
  consecutive_errors : Z
}.

Definition LoopState_init : LoopState :=
  {| loop_count := 0; consecutive_errors := 0 |}.

(** The [try] block of one turn of [while True]: the outcome, the value of
    [consecutive_errors] when the block is left, and the world. *)
Definition monitor_try
  (config : Config) (s : LoopState) (w : World) : outcome unit * Z * World :=
  let '(fetched, w) := fetch_active_calls w in
  match fetched with
  | Raises e => (Raises e, consecutive_errors s, w)
  | Returns raw_data =>
      match parse_active_calls raw_data with
      | Raises e => (Raises e, consecutive_errors s, w)
      | Returns active_calls =>
          let matching_calls :=
            search_calls_by_location active_calls (search_term config) in
          let w :=
            match matching_calls with
            | [] => w
            | _ :: _ => snd (process_and_notify_matches matching_calls config w)
            end in
          let '(slept, w) := time_sleep (poll_interval config) w in
          (slept, 0, w)
      end
  end.

(** One turn of [while True], with its two [except] clauses. [Raises e] is
    the [raise] that leaves the loop. *)
Definition monitor_iteration
  (config : Config) (s : LoopState) (w : World) : outcome LoopState * World :=
  let loop_count := loop_count s + 1 in
  let '(r, consecutive_errors, w) := monitor_try config s w in
  match r with
  | Returns _ =>
      (Returns {| loop_count := loop_count;
                  consecutive_errors := consecutive_errors |}, w)
  | Raises e =>
      if is_request_exception e then
        let consecutive_errors := consecutive_errors + 1 in
        if consecutive_errors >=? max_consecutive_errors then (Raises e, w)
        else
          let '(slept, w) := time_sleep (backoff_time consecutive_errors) w in
          match slept with
          | Raises e' => (Raises e', w)
          | Returns _ =>
              (Returns {| loop_count := loop_count;
                          consecutive_errors := consecutive_errors |}, w)
          end
      else
        let consecutive_errors := consecutive_errors + 1 in
        if consecutive_errors >=? max_consecutive_errors then (Raises e, w)
        else
          let '(slept, w) := time_sleep 60 w in
          match slept with
          | Raises e' => (Raises e', w)
          | Returns _ =>
              (Returns {| loop_count := loop_count;
                          consecutive_errors := consecutive_errors |}, w)
          end
  end.

(** Where a run of the loop stands after a number of turns. *)
Inductive loop_status :=
| Running (s : LoopState)
| Stopped (e : exn).

(** [while True], unrolled for at most [turns] turns. *)
Fixpoint monitor_loop_from
  (turns : nat) (config : Config) (s : LoopState) (w : World)
  : loop_status * World :=
  match turns with
  | O => (Running s, w)
  | S turns =>
      match monitor_iteration config s w with
      | (Returns s, w) => monitor_loop_from turns config s w
      | (Raises e, w) => (Stopped e, w)
      end
  end.

Definition monitor_loop (turns : nat) (config : Config) (w : World)
  : loop_status * World :=
  monitor_loop_from turns config LoopState_init w.

(** *** main *)

(** [main()] from the configuration [parse_arguments] returned: a fresh
    tracker, then the loop, at the start of the process (empty history).
    [Some 1] is [sys.exit(1)] in the [except Exception] clause, reached when
    the loop is left by an exception; [None] says that the loop is still
    running after [turns] turns. The second component is the count of the
    final summary, [tracker.get_notification_count()]. *)
Definition main (turns : nat) (config : Config) : option Z * nat * World :=
  match monitor_loop turns config
          {| tracker := NotificationTracker_init; history := [] |} with
  | (Running _, w) => (None, get_notification_count (tracker w), w)
  | (Stopped _, w) => (Some 1, get_notification_count (tracker w), w)
  end.

End Program.

(** * Vocabulary of the statements *)

Section Vocabulary.
Context {L : Library}.

(** "[location] contains [term], case-insensitively": after case folding of
    both, the term occurs as a contiguous piece of the location. *)
Definition contains_ci (location term : pystr) : Prop :=
  exists before after : pystr, upper location = before ++ upper term ++ after.

(** Two characters are the same letter up to case: they are equal, or one
    is an upper-case ASCII letter and the other its lower-case form. *)
Definition same_letter (c d : char) : Prop :=
  c = d
  \/ ((65 <= c <= 90)%N /\ d = (c + 32)%N)
  \/ ((65 <= d <= 90)%N /\ c = (d + 32)%N).

(** "[location] contains [term], ignoring case", said without any case
    folding: a contiguous piece of the location matches the term letter by
    letter up to case. *)
Definition contains_ignoring_case (location term : pystr) : Prop :=
  exists before piece after : pystr,
    location = before ++ piece ++ after /\ Forall2 same_letter piece term.

(** The upper-case form of an ASCII character. *)
Definition ascii_upper (c : char) : char :=
  if ((97 <=? c) && (c <=? 122))%N then (c - 32)%N else c.

(** A [CALL] element has the four child elements the parser requires. *)
Definition has_required_children (call_element : Element) : Prop :=
  is_Some (find (py "DATE") call_element)
  /\ is_Some (find (py "DESC") call_element)
  /\ is_Some (find (py "LOCATION") call_element)
  /\ is_Some (find (py "DISTRICT") call_element).

(** The stripped text of the first child with tag [t]; empty when the child
    has no text (or is absent). *)
Definition child_text (t : pystr) (call_element : Element) : pystr :=
  from_option text_of [] (find t call_element).

(** The record the parser builds from a [CALL] element that has the four
    children: a missing [incident] attribute and a missing text are empty
    strings. *)
Definition record_of (call_element : Element) : PoliceCall :=
  PoliceCall_init (get (py "incident") [] call_element)
    (child_text (py "DATE") call_element)
    (child_text (py "DESC") call_element)
    (child_text (py "LOCATION") call_element)
    (child_text (py "DISTRICT") call_element).

(** No field of the record is empty. *)
Definition all_fields_present (call : PoliceCall) : Prop :=
  incident_number call <> [] /\ datetime_str call <> []
  /\ call_type call <> [] /\ location call <> [] /\ district call <> [].

End Vocabulary.

(** The push send succeeded: [requests.post] returned a response and its
    [raise_for_status()] raised nothing. *)
Definition push_delivered (r : outcome Response) : Prop :=
  exists response, r = Returns response /\ raise_for_status response = Returns tt.

(** The push send was attempted and failed: [requests.post] raised (a
    timeout, a connection error, ...) or the response had an error status,
    so that [raise_for_status()] raised. *)
Definition push_failed (r : outcome Response) : Prop :=
  (exists e, r = Raises e)
  \/ (exists response e, r = Returns response /\ raise_for_status response = Raises e).

(** [e] is an activity of the email channel for [call]. *)
Definition is_email_event (call : PoliceCall) (e : event) : Prop :=
  e = EmailSkipped call \/ exists r, e = EmailSend call r.

(** In a sequence of effects the email channel is gated by the push channel:
    each of its activities for a call comes right after a successful push
    send for that same call. *)
Definition email_gated (events : list event) : Prop :=
  forall before e after call,
    events = before ++ e :: after ->
    is_email_event call e ->
    exists before' r,
      before = before' ++ [Post call r] /\ push_delivered r.

(** [e] is a successful push send. *)
Definition is_delivery (e : event) : bool :=
  match e with
  | Post _ (Returns response) =>
      match raise_for_status response with
      | Returns _ => true
      | Raises _ => false
      end
  | _ => false
  end.

(** [e] is a successful push send for the incident [incident_number]. *)
Definition is_delivery_of (incident : pystr) (e : event) : bool :=
  match e with
  | Post call _ => bool_decide (incident_number call = incident) && is_delivery e
  | _ => false
  end.

(** The number of successful push sends among [events]. *)
Definition deliveries (events : list event) : nat :=
  length (List.filter is_delivery events).

(** The number of successful push sends for one incident among [events]. *)
Definition deliveries_of (incident : pystr) (events : list event) : nat :=
  length (List.filter (is_delivery_of incident) events).

(** What a run of the notification loop from the count [n0] and world [w0]
    to the count [n] and world [w] did, [events] being the effects it added:
    the email channel stayed gated, the count and the tracker both grew by
    the number of successful sends, no incident was sent twice, and an
    incident was sent only if it was not marked before and is marked after. *)
Definition batch_effect
  (n0 : nat) (w0 : World) (n : nat) (w : World) (events : list event) : Prop :=
  history w = history w0 ++ events
  /\ email_gated events
  /\ n = (n0 + deliveries events)%nat
  /\ get_notification_count (tracker w)
     = (get_notification_count (tracker w0) + deliveries events)%nat
  /\ notified_incidents (tracker w0) ⊆ notified_incidents (tracker w)
  /\ (forall i, (deliveries_of i events <= 1)%nat)
  /\ (forall i, i ∈ notified_incidents (tracker w0) -> deliveries_of i events = 0%nat)
  /\ (forall i, deliveries_of i events <> 0%nat -> i ∈ notified_incidents (tracker w)).

(** The lengths of the sleeps among [events], in order. *)
Definition sleeps (events : list event) : list Z :=
  omap (fun e => match e with Sleep seconds => Some seconds | _ => None end)
       events.

(** [s] has no whitespace at either end. *)
Definition trimmed (s : pystr) : Prop :=
  (forall c r, s = c :: r -> is_space c = false)
  /\ (forall r c, s = r ++ [c] -> is_space c = false).

(** Every character of [s] is an ASCII character. *)
Definition ascii_only (s : pystr) : Prop := Forall (fun c => (c < 128)%N) s.

(** [e] is a push request. *)
Definition is_post (e : event) : bool :=
  match e with Post _ _ => true | _ => false end.

(** The calls for which [events] has a push request, in the order of the
    requests. *)
Definition posted_calls (events : list event) : list PoliceCall :=
  omap (fun e => match e with Post call _ => Some call | _ => None end) events.

(** [e] is a call of [resend.Emails.send]. *)
Definition is_email_send (e : event) : bool :=
  match e with EmailSend _ _ => true | _ => false end.

(** The sleep the handler of the loop makes for the exception [e] when the
    counter has become [c]: the exponential backoff for a network error, 60
    otherwise. *)
Definition handler_delay (e : exn) (c : Z) : Z :=
  if is_request_exception e then backoff_time c else 60.

(** The world after a turn of the loop whose fetch raised [e] and whose
    handler slept for the counter value [c]. *)
Definition after_failed_turn `{Net : Network}
  (w : World) (e : exn) (c : Z) : World :=
  record_event (snd (fetch_active_calls w)) (Sleep (handler_delay e c)).

(** What any stretch of a run from the world [w0] to the world [w] did,
    [events] being the effects it added: [batch_effect] without the loop's
    own counter. *)
Definition run_effect (w0 w : World) (events : list event) : Prop :=
  batch_effect 0 w0 (deliveries events) w events.

(** * Sample data *)

(** An element with text and no attributes or children. *)
Definition leaf (t : pystr) (x : option pystr) : Element :=
  mkElement t ∅ x [].

(** A feed of three [CALL] elements: the first has no [incident] attribute,
    the second an empty [DATE], the third no [DISTRICT] child. *)
Definition sample_feed : pystr :=
  py "<CALLS><CALL><DATE>5/27/2025 13:36</DATE><DESC>General investigation</DESC><LOCATION>2400 BLOCK 29TH ST</LOCATION><DISTRICT>G8</DISTRICT></CALL><CALL incident='2025-00192514'><DATE></DATE><DESC>Accident</DESC><LOCATION>FORELAND AVE</LOCATION><DISTRICT>A1</DISTRICT></CALL><CALL incident='2025-00192515'><DATE>5/27/2025 13:40</DATE><DESC>Theft</DESC><LOCATION>100 MAIN ST</LOCATION></CALL></CALLS>".

(** The tree [ET.fromstring] builds for [sample_feed]. *)
Definition sample_root : Element :=
  mkElement (py "CALLS") ∅ None
    [ mkElement (py "CALL") ∅ None
        [ leaf (py "DATE") (Some (py "5/27/2025 13:36"));
          leaf (py "DESC") (Some (py "General investigation"));
          leaf (py "LOCATION") (Some (py "2400 BLOCK 29TH ST"));
          leaf (py "DISTRICT") (Some (py "G8")) ];
      mkElement (py "CALL") {[ py "incident" := py "2025-00192514" ]} None
        [ leaf (py "DATE") None;
          leaf (py "DESC") (Some (py "Accident"));
          leaf (py "LOCATION") (Some (py "FORELAND AVE"));
          leaf (py "DISTRICT") (Some (py "A1")) ];
      mkElement (py "CALL") {[ py "incident" := py "2025-00192515" ]} None
        [ leaf (py "DATE") (Some (py "5/27/2025 13:40"));
          leaf (py "DESC") (Some (py "Theft"));
          leaf (py "LOCATION") (Some (py "100 MAIN ST")) ] ].

(** A library that knows [sample_feed]: the XML parser accepts it, also
    behind one byte-order-mark, and rejects every other input (among them
    the blank inputs and the feed behind two byte-order-marks); [strptime]
    knows the two timestamps of the feed. *)
Definition sample_library : Library :=
  {| unicode_upper := fun c => [c];
     strptime := fun s =>
       if bool_decide (s = py "5/27/2025 13:36")
       then Some {| dt_year := 2025; dt_month := 5; dt_day := 27;
                    dt_hour := 13; dt_minute := 36 |}
       else if bool_decide (s = py "5/27/2025 13:40")
       then Some {| dt_year := 2025; dt_month := 5; dt_day := 27;
                    dt_hour := 13; dt_minute := 40 |}
       else None;
     fromstring := fun s =>
       if bool_decide (s = sample_feed) then Returns sample_root
       else if bool_decide (s = BOM ++ sample_feed) then Returns sample_root
       else Raises ParseError |}.

(** The two records parsed from [sample_feed]. *)
Definition sample_call_1 : PoliceCall :=
  {| incident_number := [];
     datetime_str := py "5/27/2025 13:36";
     call_type := py "General investigation";
     location := py "2400 BLOCK 29TH ST";
     district := py "G8";
     parsed_datetime :=
       Some {| dt_year := 2025; dt_month := 5; dt_day := 27;
               dt_hour := 13; dt_minute := 36 |} |}.

Definition sample_call_2 : PoliceCall :=
  {| incident_number := py "2025-00192514";
     datetime_str := [];
     call_type := py "Accident";
     location := py "FORELAND AVE";
     district := py "A1";
     parsed_datetime := None |}.

Definition ok_response (body : pystr) : Response :=
  {| raise_for_status := Returns tt; response_text := body |}.

Definition error_response : Response :=
  {| raise_for_status := Raises HTTPError; response_text := [] |}.

(** Every request succeeds; the feed is [sample_feed]. *)
Definition network_up : Network :=
  {| requests_get := fun _ => Returns (ok_response sample_feed);
     requests_post := fun _ _ => Returns (ok_response []);
     resend_send := fun _ _ => Returns (Some (py "msg-1"));
     clock_admits := fun _ _ => true |}.

(** Every request times out or fails to connect. *)
Definition network_down : Network :=
  {| requests_get := fun _ => Raises ConnectionError;
     requests_post := fun _ _ => Raises Timeout;
     resend_send := fun _ _ => Raises OtherException;
     clock_admits := fun _ _ => true |}.

(** The push sink answers with an error status. *)
Definition network_rejecting : Network :=
  {| requests_get := fun _ => Returns (ok_response sample_feed);
     requests_post := fun _ _ => Returns error_response;
     resend_send := fun _ _ => Returns (Some (py "msg-1"));
     clock_admits := fun _ _ => true |}.

(** The first push send times out, the later ones succeed. *)
Definition network_flaky : Network :=
  {| requests_get := fun _ => Returns (ok_response sample_feed);
     requests_post := fun h _ =>
       match h with [] => Raises Timeout | _ :: _ => Returns (ok_response []) end;
     resend_send := fun _ _ => Returns (Some (py "msg-1"));
     clock_admits := fun _ _ => true |}.

(** The first fetch fails with an exception that is no network error, the
    later ones fail to connect. *)
Definition network_erratic : Network :=
  {| requests_get := fun h =>
       match h with [] => Raises OtherException | _ :: _ => Raises ConnectionError end;
     requests_post := fun _ _ => Raises Timeout;
     resend_send := fun _ _ => Raises OtherException;
     clock_admits := fun _ _ => true |}.

(** Email channel disabled. *)
Definition sample_config : Config :=
  @Config_init sample_library (py "my-alerts") (py "foreland") 30 None None None.

(** Email channel enabled, two recipients. *)
Definition sample_config_email : Config :=
  @Config_init sample_library (py "my-alerts") (py "foreland") 30
    (Some (py "re_key")) (Some (py "a@example.org, b@example.org"))
    (Some (py "monitor@example.org")).

Definition fresh_world : World :=
  {| tracker := NotificationTracker_init; history := [] |}.

(** A world in which [sample_call_2] has been notified already. *)
Definition notified_world : World :=
  {| tracker := mark_as_notified NotificationTracker_init
                  (incident_number sample_call_2);
     history := [] |}.

(** * Properties *)

(** ** NotificationTracker *)

Lemma get_notification_count_mark (t : NotificationTracker) (i : pystr) :
  (get_notification_count t <= get_notification_count (mark_as_notified t i))%nat.
Proof.
  unfold get_notification_count, mark_as_notified; simpl.
  apply subseteq_size. set_solver.
Qed.

Lemma get_notification_count_mark_new (t : NotificationTracker) (i : pystr) :
  is_already_notified t i = false ->
  get_notification_count (mark_as_notified t i) = S (get_notification_count t).
Proof.
  unfold is_already_notified, get_notification_count, mark_as_notified; simpl.
  intros H. apply bool_decide_eq_false in H.
  rewrite size_union by set_solver. by rewrite size_singleton.
Qed.

Lemma tracker_run_app (t : NotificationTracker) (ops ops' : list tracker_op) :
  tracker_run t (ops ++ ops') = tracker_run (tracker_run t ops) ops'.
Proof. unfold tracker_run. apply foldl_app. Qed.

Lemma tracker_run_count (ops : list tracker_op) :
  forall t : NotificationTracker,
    (get_notification_count t <= get_notification_count (tracker_run t ops))%nat.
Proof.
  induction ops as [|op ops IH]; intros t; simpl; [lia|].
  etransitivity; [|apply IH].
  destruct op; simpl; auto using get_notification_count_mark.
Qed.

(** C6. Marking is idempotent and the count never decreases: after one
    [mark_as_notified] of an id, [is_already_notified] answers [True] for it;
    a second mark of the same id changes neither the tracker nor
    [get_notification_count]; and along any sequence of tracker operations
    the count after a longer prefix is at least the count after a shorter
    one. *)
Theorem tracker_idempotent_monotone (t : NotificationTracker) (i : pystr) :
  is_already_notified (mark_as_notified t i) i = true
  /\ mark_as_notified (mark_as_notified t i) i = mark_as_notified t i
  /\ get_notification_count (mark_as_notified (mark_as_notified t i) i)
     = get_notification_count (mark_as_notified t i)
  /\ forall ops ops' : list tracker_op,
       (get_notification_count (tracker_run t ops)
        <= get_notification_count (tracker_run t (ops ++ ops')))%nat.
Proof.
  assert (Hidem : mark_as_notified (mark_as_notified t i) i = mark_as_notified t i).
  { unfold mark_as_notified; simpl. f_equal.
    by rewrite (assoc_L (∪)), (idemp_L (∪)). }
  repeat split.
  - unfold is_already_notified, mark_as_notified; simpl.
    apply bool_decide_eq_true, elem_of_union_l. by apply elem_of_singleton.
  - exact Hidem.
  - by rewrite Hidem.
  - intros ops ops'. rewrite tracker_run_app. apply tracker_run_count.
Qed.

(** ** Strings *)

Lemma startswith_spec (p : pystr) :
  forall s : pystr, startswith s p = true <-> exists rest, s = p ++ rest.
Proof.
  induction p as [|a p IH]; intros s; simpl.
  - destruct s; simpl; split; eauto.
  - destruct s as [|b s]; simpl.
    + split; [done|intros [? ?]; done].
    + rewrite andb_true_iff, N.eqb_eq, IH. split.
      * intros [-> [rest ->]]. eauto.
      * intros [rest [= -> ->]]. eauto.
Qed.

Lemma str_in_spec (needle : pystr) :
  forall hay : pystr,
    str_in needle hay = true <-> exists before after, hay = before ++ needle ++ after.
Proof.
  induction hay as [|c hay IH]; cbn [str_in].
  - rewrite orb_false_r, startswith_spec. split.
    + intros [rest ->]. by exists [], rest.
    + intros (before & after & H). symmetry in H.
      apply app_eq_nil in H as [-> H]. eauto.
  - rewrite orb_true_iff, startswith_spec, IH. split.
    + intros [[rest ->]|(before & after & ->)].
      * by exists [], rest.
      * by exists (c :: before), after.
    + intros (before & after & H). destruct before as [|b before].
      * left. eauto.
      * right. injection H as -> ->. eauto.
Qed.

Lemma foldl_snoc_filter {A} (P : A -> Prop) `{!forall x, Decision (P x)}
  (f : A -> bool) (l : list A) :
  (forall x, f x = true <-> P x) ->
  forall acc : list A,
    foldl (fun acc x => if f x then acc ++ [x] else acc) acc l = acc ++ filter P l.
Proof.
  intros Hf. induction l as [|x l IH]; intros acc; simpl.
  - by rewrite app_nil_r.
  - rewrite IH, filter_cons. specialize (Hf x).
    destruct (f x), (decide (P x)); try done.
    + by rewrite <- app_assoc.
    + exfalso. tauto.
    + exfalso. assert (false = true) by tauto. done.
Qed.

Section SearchProperties.
Context {L : Library}.

#[local] Instance contains_ci_dec (location term : pystr) :
  Decision (contains_ci location term).
Proof.
  refine (cast_if (decide (str_in (upper term) (upper location) = true)));
    unfold contains_ci; by rewrite <- str_in_spec.
Defined.

Lemma upper_foreland : upper (py "foreland") = upper (py "FORELAND").
Proof. reflexivity. Qed.

Lemma search_calls_by_location_filter (calls : list PoliceCall) (term : pystr) :
  search_calls_by_location calls term
  = filter (fun call => contains_ci (location call) term) calls.
Proof.
  unfold search_calls_by_location. destruct calls as [|c calls]; [done|].
  rewrite (foldl_snoc_filter (fun call => contains_ci (location call) term)).
  - done.
  - intros x. unfold contains_ci. apply str_in_spec.
Qed.

Lemma upper_char_ascii_upper (c : char) :
  (c < 128)%N -> upper_char c = [ascii_upper c].
Proof.
  intros Hc. unfold upper_char, ascii_upper.
  destruct ((97 <=? c) && (c <=? 122))%N; [done|].
  apply N.ltb_lt in Hc. by rewrite Hc.
Qed.

Lemma upper_ascii_fmap (s : pystr) :
  ascii_only s -> upper s = ascii_upper <$> s.
Proof.
  unfold upper. induction 1 as [|c s Hc _ IH]; [done|].
  cbn [mbind list_bind fmap list_fmap].
  rewrite (upper_char_ascii_upper c Hc). cbn [app]. f_equal. exact IH.
Qed.

Lemma ascii_upper_same_letter (c d : char) :
  (c < 128)%N -> (d < 128)%N ->
  ascii_upper c = ascii_upper d <-> same_letter c d.
Proof.
  intros Hc Hd. unfold ascii_upper, same_letter.
  destruct (N.leb_spec 97 c), (N.leb_spec c 122),
           (N.leb_spec 97 d), (N.leb_spec d 122); simpl; lia.
Qed.

Lemma fmap_ascii_upper_same_letters (piece term : pystr) :
  ascii_only piece -> ascii_only term ->
  ascii_upper <$> piece = ascii_upper <$> term <-> Forall2 same_letter piece term.
Proof.
  intros Hp. revert term. induction Hp as [|c piece Hc _ IH]; intros term Ht.
  - destruct term as [|d term].
    + split; intros _; [constructor|done].
    + split; intros H; [done|inversion H].
  - destruct Ht as [|d term Hd Ht].
    + split; intros H; [done|inversion H].
    + cbn [fmap list_fmap]. split.
      * intros [= H1 H2]. constructor.
        -- by apply ascii_upper_same_letter.
        -- by apply IH.
      * intros H. inversion H as [|? ? ? ? H1 H2]; subst. f_equal.
        -- by apply ascii_upper_same_letter.
        -- by apply IH.
Qed.

Lemma contains_ci_ascii (location term : pystr) :
  ascii_only location -> ascii_only term ->
  contains_ci location term <-> contains_ignoring_case location term.
Proof.
  intros Hl Ht. unfold contains_ci, contains_ignoring_case.
  rewrite (upper_ascii_fmap location Hl), (upper_ascii_fmap term Ht). split.
  - intros (before & after & H).
    apply fmap_app_inv in H as (l1 & l23 & -> & H & ->).
    symmetry in H. apply fmap_app_inv in H as (l2 & l3 & H & -> & ->).
    exists l1, l2, l3. split; [done|].
    apply Forall_app in Hl as [_ Hl]. apply Forall_app in Hl as [Hl _].
    by apply fmap_ascii_upper_same_letters.
  - intros (before & piece & after & -> & H).
    apply Forall_app in Hl as [_ Hl]. apply Forall_app in Hl as [Hl _].
    apply fmap_ascii_upper_same_letters in H; [|done..].
    exists (ascii_upper <$> before), (ascii_upper <$> after).
    by rewrite !fmap_app, H.
Qed.

(** C5. [search_calls_by_location] returns exactly the input records whose
    location contains the term case-insensitively, in their input order: the
    result is the input filtered by the test "the folded term occurs in the
    folded location", hence a subsequence of the input whose members are the
    matching records; the terms ["foreland"] and ["FORELAND"] give the same
    result on every input. The folding is case-insensitivity and nothing
    else: for every ASCII term and ASCII location the test holds exactly
    when a piece of the location matches the term letter by letter up to
    case, so on ASCII records the result is the records that contain the
    term ignoring case; the folding works character by character, and a
    character outside ASCII is folded by Python's upper-case table. *)
Theorem search_calls_by_location_spec (calls : list PoliceCall) (term : pystr) :
  search_calls_by_location calls term
  = filter (fun call => contains_ci (location call) term) calls
  /\ sublist (search_calls_by_location calls term) calls
  /\ (forall call : PoliceCall,
        call ∈ search_calls_by_location calls term
        <-> call ∈ calls /\ contains_ci (location call) term)
  /\ search_calls_by_location calls (py "foreland")
     = search_calls_by_location calls (py "FORELAND")
  /\ (forall location term' : pystr,
        ascii_only location -> ascii_only term' ->
        contains_ci location term' <-> contains_ignoring_case location term')
  /\ (ascii_only term ->
      Forall (fun call => ascii_only (location call)) calls ->
      forall call : PoliceCall,
        call ∈ search_calls_by_location calls term
        <-> call ∈ calls /\ contains_ignoring_case (location call) term)
  /\ (forall s t : pystr, upper (s ++ t) = upper s ++ upper t)
  /\ (forall c : char, (128 <= c)%N -> upper [c] = unicode_upper c).
Proof.
  rewrite !search_calls_by_location_filter.
  split; [reflexivity|]. split; [apply sublist_filter|]. split.
  { intros call. rewrite list_elem_of_filter. tauto. }
  split.
  { apply list_filter_iff. intros call. unfold contains_ci.
    by rewrite upper_foreland. }
  split; [exact contains_ci_ascii|]. split.
  { intros Ht Hcalls call. rewrite list_elem_of_filter. split.
    - intros [Hc Hin]. split; [done|].
      apply contains_ci_ascii; [|done..].
      by apply (proj1 (Forall_forall _ _) Hcalls).
    - intros [Hin Hc]. split; [|done].
      apply contains_ci_ascii; [|done..].
      by apply (proj1 (Forall_forall _ _) Hcalls). }
  split.
  { intros s t. unfold upper. apply bind_app. }
  intros c Hc. unfold upper, upper_char. cbn [mbind list_bind].
  assert (H1 : ((97 <=? c) && (c <=? 122))%N = false).
  { apply andb_false_iff. right. apply N.leb_gt. lia. }
  assert (H2 : (c <? 128)%N = false) by (apply N.ltb_ge; lia).
  rewrite H1, H2. apply app_nil_r.
Qed.

End SearchProperties.

Lemma search_calls_by_location_spec_witness :
  sample_call_2
    ∈ @search_calls_by_location sample_library [sample_call_1; sample_call_2]
        (py "foreland").
Proof.
  pose proof (@search_calls_by_location_spec sample_library
                [sample_call_1; sample_call_2] (py "foreland"))
    as (_ & _ & _ & _ & _ & H & _).
  assert (Hterm : ascii_only (py "foreland"))
    by (unfold ascii_only; repeat constructor).
  assert (Hcalls : Forall (fun call => ascii_only (location call))
                     [sample_call_1; sample_call_2])
    by (unfold ascii_only; repeat constructor).
  apply (proj2 (H Hterm Hcalls sample_call_2)).
  split; [apply list_elem_of_further, list_elem_of_here|].
  exists [], (py "FORELAND"), (py " AVE"). split; [reflexivity|].
  apply fmap_ascii_upper_same_letters;
    [unfold ascii_only; repeat constructor..|reflexivity].
Defined.

(** ** parse_active_calls *)

Lemma lstrip_blank (s : pystr) :
  Forall (fun c => is_space c = true) s -> lstrip s = [].
Proof. induction 1 as [|c s Hc _ IH]; simpl; [done|]. by rewrite Hc. Qed.

Lemma strip_blank (s : pystr) :
  Forall (fun c => is_space c = true) s -> strip s = [].
Proof. intros H. unfold strip, rstrip. by rewrite (lstrip_blank s H). Qed.

Lemma lstrip_snoc (c : char) (s : pystr) :
  is_space c = false -> lstrip (s ++ [c]) <> [].
Proof.
  intros Hc. induction s as [|d s IH]; simpl.
  - by rewrite Hc.
  - by destruct (is_space d).
Qed.

Lemma strip_cons (c : char) (s : pystr) :
  is_space c = false -> strip (c :: s) <> [].
Proof.
  intros Hc. unfold strip, rstrip. simpl. rewrite Hc, reverse_cons.
  intros H. apply (f_equal length) in H. rewrite length_reverse in H.
  apply (lstrip_snoc c (reverse s) Hc). by apply nil_length_inv.
Qed.

Lemma truthy_false (s : pystr) : truthy s = false <-> s = [].
Proof. by destruct s. Qed.

#[local] Instance has_required_children_dec (call_element : Element) :
  Decision (has_required_children call_element).
Proof. unfold has_required_children. apply _. Defined.

Lemma parse_call_spec `{L : Library} (calls : list PoliceCall) (call_element : Element) :
  parse_call calls call_element
  = calls ++ (record_of <$> filter has_required_children [call_element]).
Proof.
  unfold parse_call, record_of, child_text.
  rewrite filter_cons, filter_nil.
  destruct (decide (has_required_children call_element)) as [H|H].
  - destruct H as ([d Hd] & [ds Hds] & [l Hl] & [di Hdi]).
    rewrite Hd, Hds, Hl, Hdi. cbn [fmap list_fmap].
    by rewrite Hd, Hds, Hl, Hdi.
  - destruct (find (py "DATE") call_element) eqn:Hd,
             (find (py "DESC") call_element) eqn:Hds,
             (find (py "LOCATION") call_element) eqn:Hl,
             (find (py "DISTRICT") call_element) eqn:Hdi;
      simpl; rewrite ?app_nil_r; try done.
    exfalso. apply H. unfold has_required_children.
    rewrite Hd, Hds, Hl, Hdi. repeat split; eauto.
Qed.

Lemma foldl_parse_call `{L : Library} (call_elements : list Element) :
  forall calls : list PoliceCall,
    foldl parse_call calls call_elements
    = calls ++ (record_of <$> filter has_required_children call_elements).
Proof.
  induction call_elements as [|e es IH]; intros calls; simpl.
  - by rewrite app_nil_r.
  - rewrite IH, parse_call_spec, <- app_assoc, <- fmap_app.
    by rewrite <- filter_app.
Qed.

Lemma parse_calls_spec `{L : Library} (root : Element) :
  parse_calls root
  = record_of <$> filter has_required_children (findall (py "CALL") root).
Proof. unfold parse_calls. by rewrite foldl_parse_call. Qed.

Lemma parse_active_calls_cases `{L : Library} (raw_data : pystr) :
  (strip raw_data = [] /\ parse_active_calls raw_data = Returns [])
  \/ (strip raw_data <> []
      /\ exists e, fromstring (clean_data raw_data) = Raises e
                   /\ parse_active_calls raw_data = Returns [])
  \/ (strip raw_data <> []
      /\ exists root, fromstring (clean_data raw_data) = Returns root
                      /\ parse_active_calls raw_data = Returns (parse_calls root)).
Proof.
  unfold parse_active_calls.
  destruct (truthy (strip raw_data)) eqn:Ht; simpl.
  - assert (strip raw_data <> []) by (intros E; by rewrite E in Ht).
    right. destruct (fromstring (clean_data raw_data)) as [root|e].
    + right. eauto.
    + left. split; [done|]. exists e. by destruct e.
  - left. by apply truthy_false in Ht.
Qed.

(** C7. [parse_active_calls] returns on every input, raising nothing; on
    an input that is empty or made of whitespace only it returns the empty
    list; and when the XML parser raises on the input (malformed markup,
    [ParseError], or any other exception) it returns the empty list. *)
Theorem parse_active_calls_total `{L : Library} (raw_data : pystr) :
  (exists calls, parse_active_calls raw_data = Returns calls)
  /\ (Forall (fun c => is_space c = true) raw_data ->
      parse_active_calls raw_data = Returns [])
  /\ (forall e, fromstring (clean_data raw_data) = Raises e ->
      parse_active_calls raw_data = Returns []).
Proof.
  destruct (parse_active_calls_cases raw_data)
    as [[Hb Hp]|[(Hn & e & He & Hp)|(Hn & root & Hr & Hp)]].
  - repeat split; eauto.
  - repeat split; eauto.
  - repeat split; eauto.
    + intros Hb. by apply strip_blank in Hb.
    + intros e He. congruence.
Qed.

Lemma parse_active_calls_total_witness :
  @parse_active_calls sample_library (py "  ") = Returns []
  /\ @parse_active_calls sample_library (py "<CALLS><CALL>") = Returns [].
Proof.
  split.
  - apply (@parse_active_calls_total sample_library (py "  ")).
    repeat constructor.
  - apply (proj2 (proj2 (@parse_active_calls_total sample_library
                           (py "<CALLS><CALL>"))) ParseError).
    vm_compute. reflexivity.
Defined.

(** C2, as stated, fails: the first record parsed from [sample_feed] has an
    empty incident number (no [incident] attribute) and the second an empty
    timestamp (empty [DATE] element); both are in the output. Only the third
    element, which has no [DISTRICT] child, is dropped. *)
Lemma parse_keeps_records_with_empty_fields :
  @parse_active_calls sample_library sample_feed
  = Returns [sample_call_1; sample_call_2]
  /\ incident_number sample_call_1 = []
  /\ datetime_str sample_call_2 = []
  /\ ~ all_fields_present sample_call_1
  /\ ~ all_fields_present sample_call_2.
Proof.
  split; [vm_compute; reflexivity|].
  split; [reflexivity|]. split; [reflexivity|].
  split; intros (H1 & H2 & _); [by apply H1 | by apply H2].
Qed.

Lemma lstrip_nil_blank (s : pystr) :
  lstrip s = [] -> Forall (fun c => is_space c = true) s.
Proof.
  induction s as [|c s IH]; simpl; [constructor|].
  destruct (is_space c) eqn:Hc; [|done]. intros H. constructor; auto.
Qed.

Lemma lstrip_blank_prefix (s : pystr) :
  exists p, s = p ++ lstrip s /\ Forall (fun c => is_space c = true) p.
Proof.
  induction s as [|c s (p & IH & Hp)]; simpl; [by exists []|].
  destruct (is_space c) eqn:Hc.
  - exists (c :: p). simpl. rewrite <- IH. split; [done|]. by constructor.
  - by exists [].
Qed.

Lemma strip_nil_blank (s : pystr) :
  strip s = [] -> Forall (fun c => is_space c = true) s.
Proof.
  unfold strip, rstrip. intros H.
  apply (f_equal reverse) in H. rewrite reverse_involutive in H.
  apply lstrip_nil_blank, Forall_reverse in H.
  rewrite reverse_involutive in H.
  destruct (lstrip_blank_prefix s) as (p & E & Hp).
  rewrite E. by apply Forall_app.
Qed.

(** C2, amended. What is dropped is a [CALL] element that lacks one of its
    four child elements [DATE], [DESC], [LOCATION], [DISTRICT]. For every
    input that is not blank and that the XML parser accepts, the parsed
    output is exactly the list of the records of those [CALL] elements of the
    document that have all four children, in document order: a record is in
    the output exactly when it is the record of such an element of the
    document. A missing [incident] attribute or an empty text does not drop
    the record. *)
Theorem parse_drops_calls_missing_a_child `{L : Library}
  (raw_data : pystr) (root : Element) :
  ~ Forall (fun c => is_space c = true) raw_data ->
  fromstring (clean_data raw_data) = Returns root ->
  parse_active_calls raw_data
  = Returns (record_of
               <$> filter has_required_children (findall (py "CALL") root))
  /\ forall call,
       call ∈ record_of
                <$> filter has_required_children (findall (py "CALL") root)
       <-> exists call_element,
             call_element ∈ findall (py "CALL") root
             /\ has_required_children call_element
             /\ call = record_of call_element.
Proof.
  intros Hnonblank Hroot. split.
  - destruct (parse_active_calls_cases raw_data)
      as [[Hb _]|[(_ & e & He & _)|(_ & root' & Hr & ->)]].
    + destruct Hnonblank. by apply strip_nil_blank.
    + congruence.
    + rewrite Hroot in Hr. injection Hr as <-. by rewrite parse_calls_spec.
  - intros call. rewrite list_elem_of_fmap. split.
    + intros (e & -> & He). apply list_elem_of_filter in He as [? ?]. eauto.
    + intros (e & Hin & Hreq & ->). exists e. split; [done|].
      by apply list_elem_of_filter.
Qed.

Lemma parse_drops_calls_missing_a_child_witness :
  @parse_active_calls sample_library sample_feed
  = Returns (@record_of sample_library
               <$> filter has_required_children
                     (findall (py "CALL") sample_root))
  /\ @record_of sample_library
       <$> filter has_required_children (findall (py "CALL") sample_root)
     = [sample_call_1; sample_call_2].
Proof.
  split; [|vm_compute; reflexivity].
  apply (@parse_drops_calls_missing_a_child sample_library sample_feed
           sample_root).
  - assert (E : sample_feed = 60%N :: tail sample_feed) by reflexivity.
    rewrite E. intros H. apply Forall_inv in H. discriminate H.
  - vm_compute. reflexivity.
Defined.

(** *** The byte-order-mark *)

Lemma startswith_nil (s : pystr) : startswith s [] = true.
Proof. by destruct s. Qed.

Lemma clean_data_bom (s : pystr) :
  clean_data (BOM ++ s)
  = if startswith s BOM_ARTIFACT then drop 3 s else s.
Proof.
  unfold clean_data, BOM. cbn [app startswith].
  by rewrite N.eqb_refl, startswith_nil.
Qed.

Lemma clean_data_no_bom (s : pystr) :
  startswith s BOM = false ->
  clean_data s = if startswith s BOM_ARTIFACT then drop 3 s else s.
Proof. unfold clean_data. by intros ->. Qed.

Lemma blank_not_artifact (s : pystr) :
  strip s = [] -> startswith s BOM_ARTIFACT = false.
Proof.
  destruct s as [|c s]; [done|]. intros Hs.
  destruct (is_space c) eqn:Hc.
  - unfold BOM_ARTIFACT. cbn [startswith].
    destruct (N.eqb_spec 8730 c) as [<-|]; [done|done].
  - by apply strip_cons with (s := s) in Hc.
Qed.

(** C8, as stated, fails on an input that itself begins with two
    byte-order-marks: one more in front leaves two for the XML parser, which
    rejects them, while the input itself is parsed behind the one that
    remains. *)
Lemma double_bom_parses_differently :
  @parse_active_calls sample_library (BOM ++ (BOM ++ BOM ++ sample_feed))
  = Returns []
  /\ @parse_active_calls sample_library (BOM ++ BOM ++ sample_feed)
     = Returns [sample_call_1; sample_call_2]
  /\ @parse_active_calls sample_library (BOM ++ (BOM ++ BOM ++ sample_feed))
     <> @parse_active_calls sample_library (BOM ++ BOM ++ sample_feed).
Proof.
  assert (H1 : @parse_active_calls sample_library
                 (BOM ++ (BOM ++ BOM ++ sample_feed)) = Returns [])
    by (vm_compute; reflexivity).
  assert (H2 : @parse_active_calls sample_library (BOM ++ BOM ++ sample_feed)
               = Returns [sample_call_1; sample_call_2])
    by (vm_compute; reflexivity).
  split; [exact H1|]. split; [exact H2|].
  rewrite H1, H2. discriminate.
Qed.

(** C8, amended. For every input that does not itself begin with a
    byte-order-mark, putting one in front does not change the parsed
    records, provided the XML parser raises on that input when it is empty
    or whitespace only (as it does on a document without an element). *)
Theorem bom_prefix_parses_identically `{L : Library} (s : pystr) :
  startswith s BOM = false ->
  (strip s = [] -> exists e, fromstring s = Raises e) ->
  parse_active_calls (BOM ++ s) = parse_active_calls s.
Proof.
  intros Hbom Hblank. unfold parse_active_calls.
  rewrite clean_data_bom, (clean_data_no_bom s Hbom).
  assert (Hn : strip (BOM ++ s) <> []) by (by apply strip_cons).
  destruct (strip (BOM ++ s)) as [|c r]; [done|]. cbn [truthy negb].
  destruct (strip s) as [|c' r'] eqn:Hs; cbn [truthy negb]; [|done].
  rewrite (blank_not_artifact s Hs).
  destruct (Hblank eq_refl) as [e ->]. by destruct e.
Qed.

Lemma bom_prefix_parses_identically_witness :
  @parse_active_calls sample_library (BOM ++ sample_feed)
  = @parse_active_calls sample_library sample_feed
  /\ @parse_active_calls sample_library (BOM ++ py "  ")
     = @parse_active_calls sample_library (py "  ").
Proof.
  split.
  - apply (@bom_prefix_parses_identically sample_library sample_feed).
    + vm_compute. reflexivity.
    + vm_compute. discriminate.
  - apply (@bom_prefix_parses_identically sample_library (py "  ")).
    + vm_compute. reflexivity.
    + intros _. exists ParseError. vm_compute. reflexivity.
Defined.


(** ** send_notification *)

Lemma push_delivered_or_failed (r : outcome Response) :
  push_delivered r \/ push_failed r.
Proof.
  destruct r as [response|e].
  - destruct (raise_for_status response) as [[]|e] eqn:H.
    + left. by exists response.
    + right. right. by exists response, e.
  - right. left. by exists e.
Qed.

Lemma push_delivered_not_failed (r : outcome Response) :
  push_delivered r -> push_failed r -> False.
Proof.
  intros (response & -> & Hok) [[e He]|(response' & e & He & Hbad)];
    [done|]. injection He as <-. congruence.
Qed.

Lemma send_notification_cases `{Net : Network}
  (call : PoliceCall) (config : Config) (w : World) :
  let r := requests_post (history w) call in
  (is_already_notified (tracker w) (incident_number call) = true
   /\ send_notification call config w = (false, w))
  \/ (is_already_notified (tracker w) (incident_number call) = false
      /\ push_failed r
      /\ send_notification call config w = (false, record_event w (Post call r)))
  \/ (is_already_notified (tracker w) (incident_number call) = false
      /\ push_delivered r
      /\ send_notification call config w
         = (true,
            {| tracker := mark_as_notified (tracker w) (incident_number call);
               history := history w ++ [Post call r] |})).
Proof.
  intros r. unfold send_notification. fold r.
  destruct (is_already_notified (tracker w) (incident_number call));
    [by left|right].
  destruct r as [response|e] eqn:Hr.
  - destruct (raise_for_status response) as [[]|e] eqn:Hs.
    + right. split; [done|]. split; [by exists response|done].
    + left. split; [done|]. split; [right; by exists response, e|by destruct e].
  - left. split; [done|]. split; [left; by exists e|by destruct e].
Qed.

Lemma mark_as_notified_changes (t : NotificationTracker) (i : pystr) :
  is_already_notified t i = false -> mark_as_notified t i <> t.
Proof.
  intros H E. apply (f_equal (fun t => is_already_notified t i)) in E.
  rewrite H in E. unfold is_already_notified, mark_as_notified in E; simpl in E.
  apply bool_decide_eq_false in E. apply E. set_solver.
Qed.

(** C1. The push channel is gated by the tracker. If the incident is
    already marked, [send_notification] makes no send attempt (the world,
    history included, is unchanged) and returns [False]. The tracker changes
    only when the send succeeded, and then by the marking of this incident.
    When the send is attempted and fails (the request raises a timeout, a
    connection error or anything else, or the response has an error status)
    the result is [False] and the tracker is unchanged. *)
Theorem send_notification_dedup_gating `{Net : Network}
  (call : PoliceCall) (config : Config) (w : World) :
  let r := requests_post (history w) call in
  let sent := fst (send_notification call config w) in
  let w' := snd (send_notification call config w) in
  (is_already_notified (tracker w) (incident_number call) = true ->
   sent = false /\ w' = w)
  /\ (tracker w' <> tracker w ->
      sent = true /\ push_delivered r
      /\ tracker w' = mark_as_notified (tracker w) (incident_number call))
  /\ (is_already_notified (tracker w) (incident_number call) = false ->
      push_failed r ->
      sent = false /\ tracker w' = tracker w
      /\ history w' = history w ++ [Post call r]).
Proof.
  intros r sent w'. subst r sent w'.
  pose proof (send_notification_cases call config w) as H. cbv zeta in H.
  destruct H as [[Hd ->]|[(Hd & Hf & ->)|(Hd & Hok & ->)]]; simpl.
  - split; [done|]. split; [done|]. intros H. congruence.
  - split; [intros H; congruence|]. split; [done|]. done.
  - split; [intros H; congruence|]. split; [done|].
    intros _ Hf. destruct (push_delivered_not_failed _ Hok Hf).
Qed.

Lemma send_notification_dedup_gating_witness :
  @send_notification network_down sample_call_2 sample_config notified_world
  = (false, notified_world)
  /\ tracker (snd (@send_notification network_down sample_call_2
                     sample_config fresh_world))
     = tracker fresh_world
  /\ tracker (snd (@send_notification network_rejecting sample_call_2
                     sample_config fresh_world))
     = tracker fresh_world.
Proof.
  split; [|split].
  - destruct (@send_notification_dedup_gating network_down sample_call_2
                sample_config notified_world) as (H & _ & _).
    destruct H as [H1 H2]; [vm_compute; reflexivity|].
    by apply injective_projections.
  - destruct (@send_notification_dedup_gating network_down sample_call_2
                sample_config fresh_world) as (_ & _ & H).
    destruct H as (_ & H & _); [vm_compute; reflexivity| |exact H].
    left. by exists Timeout.
  - destruct (@send_notification_dedup_gating network_rejecting sample_call_2
                sample_config fresh_world) as (_ & _ & H).
    destruct H as (_ & H & _); [vm_compute; reflexivity| |exact H].
    right. by exists error_response, HTTPError.
Defined.

(** C9, as stated, fails: for an incident that is already marked and for a
    fresh incident whose send times out, [send_notification] returns the same
    value. *)
Lemma duplicate_and_failure_return_the_same :
  is_already_notified (tracker notified_world) (incident_number sample_call_2)
  = true
  /\ is_already_notified (tracker fresh_world) (incident_number sample_call_2)
     = false
  /\ @requests_post network_down (history fresh_world) sample_call_2
     = Raises Timeout
  /\ fst (@send_notification network_down sample_call_2 sample_config
            notified_world)
     = fst (@send_notification network_down sample_call_2 sample_config
              fresh_world).
Proof. vm_compute. repeat split. Qed.

(** C9, amended. The value [send_notification] returns does not tell
    "duplicate, skipped" from "attempted and failed": it is [False] in both
    cases, and [True] exactly when the send was attempted and succeeded. The
    two cases differ in their effects only: a duplicate leaves the world as
    it is, a failed attempt adds the request to the history. *)
Theorem send_notification_false_for_duplicate_and_failure `{Net : Network}
  (call : PoliceCall) (config : Config) (w_dup w_fail : World) :
  is_already_notified (tracker w_dup) (incident_number call) = true ->
  is_already_notified (tracker w_fail) (incident_number call) = false ->
  push_failed (requests_post (history w_fail) call) ->
  send_notification call config w_dup = (false, w_dup)
  /\ send_notification call config w_fail
     = (false,
        record_event w_fail (Post call (requests_post (history w_fail) call)))
  /\ forall w : World,
       fst (send_notification call config w) = true
       <-> is_already_notified (tracker w) (incident_number call) = false
           /\ push_delivered (requests_post (history w) call).
Proof.
  intros Hdup Hfresh Hfail. split; [|split].
  - destruct (send_notification_cases call config w_dup)
      as [[_ ->]|[(Hd & _)|(Hd & _)]]; [done|congruence..].
  - destruct (send_notification_cases call config w_fail)
      as [[Hd _]|[(_ & _ & ->)|(_ & Hok & _)]]; [congruence|done|].
    destruct (push_delivered_not_failed _ Hok Hfail).
  - intros w. destruct (send_notification_cases call config w)
      as [[Hd ->]|[(Hd & Hf & ->)|(Hd & Hok & ->)]]; simpl.
    + split; [done|]. intros [? _]. congruence.
    + split; [done|]. intros [_ Hok].
      destruct (push_delivered_not_failed _ Hok Hf).
    + done.
Qed.

Lemma send_notification_false_for_duplicate_and_failure_witness :
  @send_notification network_down sample_call_2 sample_config notified_world
  = (false, notified_world)
  /\ @send_notification network_down sample_call_2 sample_config fresh_world
     = (false, record_event fresh_world (Post sample_call_2 (Raises Timeout))).
Proof.
  destruct (@send_notification_false_for_duplicate_and_failure network_down
              sample_call_2 sample_config notified_world fresh_world)
    as (H1 & H2 & _).
  - vm_compute. reflexivity.
  - vm_compute. reflexivity.
  - left. by exists Timeout.
  - split; [exact H1|exact H2].
Defined.

(** ** process_and_notify_matches *)

Lemma notify_call_cases `{Net : Network}
  (config : Config) (n : nat) (w : World) (call : PoliceCall) :
  let r := requests_post (history w) call in
  (is_already_notified (tracker w) (incident_number call) = true
   /\ notify_call config (n, w) call = (n, w))
  \/ (is_already_notified (tracker w) (incident_number call) = false
      /\ push_failed r
      /\ notify_call config (n, w) call = (n, record_event w (Post call r)))
  \/ (is_already_notified (tracker w) (incident_number call) = false
      /\ push_delivered r
      /\ exists e,
           is_email_event call e
           /\ notify_call config (n, w) call
              = (S n,
                 {| tracker := mark_as_notified (tracker w) (incident_number call);
                    history := history w ++ [Post call r; e] |})).
Proof.
  intros r. subst r. unfold notify_call.
  pose proof (send_notification_cases call config w) as H. cbv zeta in H.
  destruct H as [[Hd ->]|[(Hd & Hf & ->)|(Hd & Hok & ->)]].
  - by left.
  - right. by left.
  - right. right. split; [done|]. split; [done|].
    unfold send_email_notification, record_event; simpl.
    destruct (email_enabled config); simpl.
    + exists (EmailSend call
                (resend_send (history w ++ [Post call (requests_post (history w) call)])
                   call)).
      split; [right; eauto|].
      rewrite <- app_assoc.
      by destruct (resend_send _ call) as [[?|]|?].
    + exists (EmailSkipped call). split; [by left|].
      by rewrite <- app_assoc.
Qed.

Lemma deliveries_app (l k : list event) :
  deliveries (l ++ k) = (deliveries l + deliveries k)%nat.
Proof. unfold deliveries. by rewrite List.filter_app, length_app. Qed.

Lemma deliveries_of_app (i : pystr) (l k : list event) :
  deliveries_of i (l ++ k) = (deliveries_of i l + deliveries_of i k)%nat.
Proof. unfold deliveries_of. by rewrite List.filter_app, length_app. Qed.

Lemma is_delivery_spec (call : PoliceCall) (r : outcome Response) :
  is_delivery (Post call r) = true <-> push_delivered r.
Proof.
  unfold push_delivered; simpl. split.
  - destruct r as [response|e]; [|done].
    destruct (raise_for_status response) as [[]|e] eqn:H; [|done]. eauto.
  - by intros (response & -> & ->).
Qed.

Lemma is_delivery_failed (call : PoliceCall) (r : outcome Response) :
  push_failed r -> is_delivery (Post call r) = false.
Proof.
  intros Hf. destruct (is_delivery (Post call r)) eqn:H; [|done].
  apply is_delivery_spec in H. destruct (push_delivered_not_failed r H Hf).
Qed.

Lemma is_delivery_email (call : PoliceCall) (e : event) :
  is_email_event call e -> is_delivery e = false.
Proof. by intros [->|[r ->]]. Qed.

Lemma is_email_event_call (call call' : PoliceCall) (e : event) :
  is_email_event call e -> is_email_event call' e -> call' = call.
Proof. intros [->|[r ->]] [H|[r' H]]; congruence. Qed.

Lemma email_gated_nil : email_gated [].
Proof. intros before e after call H. by destruct before. Qed.

Lemma email_gated_post (call : PoliceCall) (r : outcome Response) :
  email_gated [Post call r].
Proof.
  intros before e after c H He.
  destruct before as [|b before]; [|by destruct before].
  injection H as <- _. by destruct He as [?|[? ?]].
Qed.

Lemma email_gated_post_email
  (call : PoliceCall) (r : outcome Response) (e : event) :
  push_delivered r -> is_email_event call e -> email_gated [Post call r; e].
Proof.
  intros Hok He before x after c H Hx.
  destruct before as [|b before].
  - injection H as <- _. by destruct Hx as [?|[? ?]].
  - destruct before as [|b' before]; [|by destruct before].
    injection H as <- <- _.
    rewrite (is_email_event_call call c e He Hx). by exists [], r.
Qed.

Lemma email_gated_app (l k : list event) :
  email_gated l -> email_gated k -> email_gated (l ++ k).
Proof.
  intros Hl Hk before e after call H He.
  apply app_eq_inv in H as [(m & -> & H)|(m & -> & ->)].
  - destruct m as [|x m]; simpl in H.
    + destruct (Hk [] e after call (eq_sym H) He) as (before' & r & E & _).
      by destruct before'.
    + injection H as -> ->.
      by apply (Hl before x m call).
  - destruct (Hk m e after call eq_refl He) as (before' & r & -> & Hr).
    exists (l ++ before'), r. by rewrite <- app_assoc.
Qed.

Lemma deliveries_of_post (i : pystr) (call : PoliceCall) (r : outcome Response) :
  deliveries_of i [Post call r]
  = if bool_decide (incident_number call = i) && is_delivery (Post call r)
    then 1%nat else 0%nat.
Proof.
  unfold deliveries_of. cbn [List.filter is_delivery_of].
  by destruct (bool_decide _ && is_delivery _).
Qed.

Lemma deliveries_of_email (i : pystr) (call : PoliceCall) (e : event) :
  is_email_event call e -> deliveries_of i [e] = 0%nat.
Proof. by intros [->|[r ->]]. Qed.

Lemma batch_effect_refl (n : nat) (w : World) : batch_effect n w n w [].
Proof.
  unfold batch_effect. rewrite app_nil_r. cbn.
  repeat split; auto using email_gated_nil with lia.
Qed.

Lemma batch_effect_trans
  (n0 n1 n2 : nat) (w0 w1 w2 : World) (l k : list event) :
  batch_effect n0 w0 n1 w1 l -> batch_effect n1 w1 n2 w2 k ->
  batch_effect n0 w0 n2 w2 (l ++ k).
Proof.
  intros (Hh & Hg & Hn & Hc & Hs & Hle & Hold & Hnew)
         (Hh' & Hg' & Hn' & Hc' & Hs' & Hle' & Hold' & Hnew').
  unfold batch_effect. rewrite deliveries_app.
  split; [by rewrite Hh', Hh, app_assoc|].
  split; [by apply email_gated_app|].
  split; [lia|]. split; [lia|]. split; [by etransitivity|].
  split; [|split]; intros i; rewrite deliveries_of_app.
  - destruct (Nat.eq_dec (deliveries_of i l) 0%nat) as [E|E].
    + rewrite E. apply Hle'.
    + rewrite (Hold' i (Hnew i E)). specialize (Hle i). lia.
  - intros Hi. rewrite (Hold i Hi), (Hold' i); [done|]. by apply Hs.
  - intros H. destruct (Nat.eq_dec (deliveries_of i k) 0%nat) as [E|E].
    + apply Hs', Hnew. lia.
    + by apply Hnew'.
Qed.

Lemma batch_effect_step `{Net : Network}
  (config : Config) (n : nat) (w : World) (call : PoliceCall) :
  exists events,
    batch_effect n w (fst (notify_call config (n, w) call))
      (snd (notify_call config (n, w) call)) events.
Proof.
  pose proof (notify_call_cases config n w call) as H. cbv zeta in H.
  destruct H as [[Hd ->]|[(Hd & Hf & ->)|(Hd & Hok & e & He & ->)]]; simpl.
  - exists []. apply batch_effect_refl.
  - exists [Post call (requests_post (history w) call)].
    assert (Hz : forall i, deliveries_of i
                   [Post call (requests_post (history w) call)] = 0%nat).
    { intros i. rewrite deliveries_of_post, (is_delivery_failed _ _ Hf).
      by rewrite andb_false_r. }
    assert (Hnone : deliveries [Post call (requests_post (history w) call)]
                    = 0%nat).
    { unfold deliveries. cbn [List.filter].
      by rewrite (is_delivery_failed _ _ Hf). }
    unfold batch_effect. rewrite Hnone. cbn [record_event tracker history].
    split; [done|]. split; [apply email_gated_post|].
    split; [lia|]. split; [lia|]. split; [done|].
    split; [|split]; intros i; rewrite Hz; [lia|done|done].
  - exists [Post call (requests_post (history w) call); e].
    apply bool_decide_eq_false in Hd as Hnotin.
    assert (Hone : forall i,
      deliveries_of i [Post call (requests_post (history w) call); e]
      = if bool_decide (incident_number call = i) then 1%nat else 0%nat).
    { intros i.
      change [Post call (requests_post (history w) call); e]
        with ([Post call (requests_post (history w) call)] ++ [e]).
      rewrite deliveries_of_app, deliveries_of_post, (deliveries_of_email i call e He).
      rewrite (proj2 (is_delivery_spec call _) Hok), andb_true_r.
      destruct (bool_decide _); lia. }
    assert (Hsent : deliveries [Post call (requests_post (history w) call); e]
                    = 1%nat).
    { unfold deliveries. cbn [List.filter].
      by rewrite (proj2 (is_delivery_spec call _) Hok),
                 (is_delivery_email call e He). }
    unfold batch_effect. rewrite Hsent. cbn [tracker history].
    split; [done|]. split; [by apply email_gated_post_email|].
    split; [lia|].
    split; [rewrite (get_notification_count_mark_new _ _ Hd); lia|].
    split; [unfold mark_as_notified; simpl; set_solver|].
    split; [|split]; intros i; rewrite Hone; case_bool_decide as Hi.
    + lia.
    + lia.
    + intros Hin. by subst i.
    + done.
    + intros _. subst i. unfold mark_as_notified; simpl. set_solver.
    + done.
Qed.

Lemma foldl_notify_call `{Net : Network}
  (config : Config) (calls : list PoliceCall) :
  forall (n : nat) (w : World),
  exists events,
    batch_effect n w (fst (foldl (notify_call config) (n, w) calls))
      (snd (foldl (notify_call config) (n, w) calls)) events.
Proof.
  induction calls as [|call calls IH]; intros n w; cbn [foldl].
  - exists []. apply batch_effect_refl.
  - destruct (batch_effect_step config n w call) as [l Hl].
    destruct (notify_call config (n, w) call) as [n1 w1]; simpl in Hl.
    destruct (IH n1 w1) as [k Hk].
    exists (l ++ k). exact (batch_effect_trans n n1 _ w w1 _ l k Hl Hk).
Qed.

Lemma process_and_notify_matches_effect `{Net : Network}
  (calls : list PoliceCall) (config : Config) (w : World) :
  exists events,
    batch_effect 0 w (fst (process_and_notify_matches calls config w))
      (snd (process_and_notify_matches calls config w)) events.
Proof.
  unfold process_and_notify_matches. destruct calls as [|call calls].
  - exists []. apply batch_effect_refl.
  - apply foldl_notify_call.
Qed.

Example process_repeated_incident :
  @process_and_notify_matches network_up [sample_call_2; sample_call_2]
    sample_config_email fresh_world
  = (1%nat,
     {| tracker := mark_as_notified NotificationTracker_init
                     (incident_number sample_call_2);
        history := [Post sample_call_2 (Returns (ok_response []));
                    EmailSend sample_call_2 (Returns (Some (py "msg-1")))] |}).
Proof. vm_compute. reflexivity. Qed.

Example process_retries_within_batch :
  @process_and_notify_matches network_flaky [sample_call_2; sample_call_2]
    sample_config fresh_world
  = (1%nat,
     {| tracker := mark_as_notified NotificationTracker_init
                     (incident_number sample_call_2);
        history := [Post sample_call_2 (Raises Timeout);
                    Post sample_call_2 (Returns (ok_response []));
                    EmailSkipped sample_call_2] |}).
Proof. vm_compute. reflexivity. Qed.

(** C3. The push channel gates the email channel. Among the effects a call
    of [process_and_notify_matches] adds, every activity of the email channel
    for an incident comes right after a successful push send for that same
    incident, made in this same call. So the email channel is not entered
    for an incident that was already marked when the batch began (its push
    is skipped as a duplicate), nor after a push send that failed. *)
Theorem push_gates_email `{Net : Network}
  (calls : list PoliceCall) (config : Config) (w : World) :
  exists events,
    history (snd (process_and_notify_matches calls config w))
    = history w ++ events
    /\ email_gated events
    /\ (forall call e,
          is_already_notified (tracker w) (incident_number call) = true ->
          is_email_event call e -> e ∉ events)
    /\ (forall call r e before after,
          push_failed r -> is_email_event call e ->
          events <> before ++ Post call r :: e :: after).
Proof.
  destruct (process_and_notify_matches_effect calls config w)
    as (events & Hh & Hg & _ & _ & _ & _ & Hold & _).
  exists events. split; [done|]. split; [done|]. split.
  - intros call e Hd He Hin. apply bool_decide_eq_true in Hd.
    apply list_elem_of_split in Hin as (before & after & E).
    destruct (Hg before e after call E He) as (before' & r & -> & Hr).
    specialize (Hold _ Hd). rewrite E, <- app_assoc in Hold.
    rewrite deliveries_of_app in Hold. cbn [app] in Hold.
    change (Post call r :: e :: after)
      with ([Post call r] ++ e :: after) in Hold.
    rewrite deliveries_of_app, deliveries_of_post in Hold.
    rewrite (proj2 (is_delivery_spec call r) Hr) in Hold.
    rewrite bool_decide_eq_true_2 in Hold by done. simpl in Hold. lia.
  - intros call r e before after Hf He E.
    destruct (Hg (before ++ [Post call r]) e after call) as (b & r' & Hb & Hr');
      [by rewrite <- app_assoc|done|].
    apply app_inj_tail in Hb as [_ [= <-]].
    destruct (push_delivered_not_failed r Hr' Hf).
Qed.

(** C10. The number [process_and_notify_matches] returns is the growth of
    the tracker during the call: [get_notification_count] after the call is
    its value before plus the returned number, and no id leaves the tracker.
    The returned number is the number of successful push sends of the call,
    and for each incident id there is at most one successful push send, so an
    id repeated in the batch is sent and counted at most once. *)
Theorem batch_count_matches_tracker_growth `{Net : Network}
  (calls : list PoliceCall) (config : Config) (w : World) :
  let n := fst (process_and_notify_matches calls config w) in
  let w' := snd (process_and_notify_matches calls config w) in
  get_notification_count (tracker w')
  = (get_notification_count (tracker w) + n)%nat
  /\ notified_incidents (tracker w) ⊆ notified_incidents (tracker w')
  /\ exists events,
       history w' = history w ++ events
       /\ n = deliveries events
       /\ forall i, (deliveries_of i events <= 1)%nat.
Proof.
  intros n w'. subst n w'.
  destruct (process_and_notify_matches_effect calls config w)
    as (events & Hh & _ & Hn & Hc & Hs & Hle & _ & _).
  split; [by rewrite Hc, Hn|]. split; [done|].
  exists events. by rewrite Hn.
Qed.

(** ** monitor_loop *)

Lemma sleeps_snoc_sleep (events : list event) (seconds : Z) :
  sleeps (events ++ [Sleep seconds]) = sleeps events ++ [seconds].
Proof. unfold sleeps. by rewrite omap_app. Qed.

Lemma sleeps_snoc_fetch (events : list event) (r : outcome Response) :
  sleeps (events ++ [Fetch r]) = sleeps events.
Proof. unfold sleeps. rewrite omap_app. apply app_nil_r. Qed.

Lemma time_sleep_admitted `{Net : Network} (seconds : Z) (w : World) :
  0 <= seconds <= SLEEP_ALWAYS_ADMITTED ->
  time_sleep seconds w = (Returns tt, record_event w (Sleep seconds)).
Proof.
  intros H. unfold time_sleep.
  assert (H1 : (seconds <? - TIMESTAMP_MAX_SECONDS) = false)
    by (apply Z.ltb_ge; unfold TIMESTAMP_MAX_SECONDS; lia).
  assert (H2 : (TIMESTAMP_MAX_SECONDS <? seconds) = false)
    by (apply Z.ltb_ge;
        unfold TIMESTAMP_MAX_SECONDS, SLEEP_ALWAYS_ADMITTED in *; lia).
  assert (H3 : (seconds <? 0) = false) by (apply Z.ltb_ge; lia).
  assert (H4 : (seconds <=? SLEEP_ALWAYS_ADMITTED) = true)
    by (apply Z.leb_le; lia).
  by rewrite H1, H2, H3, H4.
Qed.

Lemma time_sleep_cases `{Net : Network} (seconds : Z) (w : World) :
  time_sleep seconds w = (Returns tt, record_event w (Sleep seconds))
  \/ exists e, is_request_exception e = false
               /\ time_sleep seconds w = (Raises e, w).
Proof.
  unfold time_sleep.
  destruct ((seconds <? - TIMESTAMP_MAX_SECONDS)
            || (TIMESTAMP_MAX_SECONDS <? seconds));
    [right; by exists OverflowError|].
  destruct (seconds <? 0); [right; by exists ValueError|].
  destruct ((seconds <=? SLEEP_ALWAYS_ADMITTED)
            || clock_admits (history w) seconds);
    [by left|right; by exists OSError].
Qed.

Lemma time_sleep_negative `{Net : Network} (seconds : Z) (w : World) :
  seconds < 0 ->
  exists e, is_request_exception e = false
            /\ time_sleep seconds w = (Raises e, w).
Proof.
  intros H. unfold time_sleep.
  destruct ((seconds <? - TIMESTAMP_MAX_SECONDS)
            || (TIMESTAMP_MAX_SECONDS <? seconds)); [by exists OverflowError|].
  apply Z.ltb_lt in H. rewrite H. by exists ValueError.
Qed.

Lemma backoff_time_bounds (c : Z) :
  0 <= backoff_time c <= SLEEP_ALWAYS_ADMITTED.
Proof.
  unfold backoff_time, SLEEP_ALWAYS_ADMITTED. split.
  - apply Z.min_glb; [lia|].
    destruct (Z_lt_le_dec (c - 1) 0).
    + rewrite Z.pow_neg_r by lia. lia.
    + assert (0 <= 2 ^ (c - 1)) by (apply Z.pow_nonneg; lia). lia.
  - etransitivity; [apply Z.le_min_l|lia].
Qed.

Lemma backoff_time_nonneg (c : Z) : 0 <= backoff_time c.
Proof.
  unfold backoff_time. apply Z.min_glb; [lia|].
  destruct (Z_lt_le_dec (c - 1) 0).
  - rewrite Z.pow_neg_r by lia. lia.
  - assert (0 <= 2 ^ (c - 1)) by (apply Z.pow_nonneg; lia). lia.
Qed.

Lemma fetch_active_calls_world `{Net : Network} (w : World) :
  snd (fetch_active_calls w) = record_event w (Fetch (requests_get (history w))).
Proof.
  unfold fetch_active_calls.
  destruct (requests_get (history w)) as [response|e]; [|done].
  by destruct (raise_for_status response).
Qed.

Lemma monitor_iteration_network_error `{L : Library} `{Net : Network}
  (config : Config) (s : LoopState) (w w1 : World) (e : exn) :
  fetch_active_calls w = (Raises e, w1) ->
  is_request_exception e = true ->
  monitor_iteration config s w
  = if consecutive_errors s + 1 >=? max_consecutive_errors
    then (Raises e, w1)
    else (Returns {| loop_count := loop_count s + 1;
                     consecutive_errors := consecutive_errors s + 1 |},
          record_event w1 (Sleep (backoff_time (consecutive_errors s + 1)))).
Proof.
  intros Hf He. unfold monitor_iteration, monitor_try. rewrite Hf, He.
  destruct (consecutive_errors s + 1 >=? max_consecutive_errors); [done|].
  by rewrite (time_sleep_admitted _ _
                (backoff_time_bounds (consecutive_errors s + 1))).
Qed.

Lemma fetch_active_calls_sleeps `{Net : Network} (w w1 : World) (e : exn) :
  fetch_active_calls w = (Raises e, w1) ->
  sleeps (history w1) = sleeps (history w).
Proof.
  intros H. apply (f_equal snd) in H. rewrite fetch_active_calls_world in H.
  simpl in H. subst w1. apply sleeps_snoc_fetch.
Qed.

(** One turn of the loop in which the fetch fails with a network error while
    the counter stays below the threshold: the loop goes on, having slept
    the backoff time. *)
Lemma monitor_loop_from_backoff `{L : Library} `{Net : Network}
  (turns : nat) (config : Config) (s : LoopState) (w w1 : World) (e : exn) :
  fetch_active_calls w = (Raises e, w1) ->
  is_request_exception e = true ->
  consecutive_errors s + 1 < max_consecutive_errors ->
  monitor_loop_from (S turns) config s w
  = monitor_loop_from turns config
      {| loop_count := loop_count s + 1;
         consecutive_errors := consecutive_errors s + 1 |}
      (record_event w1 (Sleep (backoff_time (consecutive_errors s + 1)))).
Proof.
  intros Hf He Hlt. cbn [monitor_loop_from].
  rewrite (monitor_iteration_network_error config s w w1 e Hf He).
  rewrite Z.geb_leb.
  by destruct (Z.leb_spec max_consecutive_errors (consecutive_errors s + 1));
    [lia|].
Qed.

(** The turn in which the counter reaches the threshold: the loop is left
    by the exception of the fetch, without a sleep. *)
Lemma monitor_loop_from_fatal `{L : Library} `{Net : Network}
  (turns : nat) (config : Config) (s : LoopState) (w w1 : World) (e : exn) :
  fetch_active_calls w = (Raises e, w1) ->
  is_request_exception e = true ->
  consecutive_errors s + 1 >= max_consecutive_errors ->
  monitor_loop_from (S turns) config s w = (Stopped e, w1).
Proof.
  intros Hf He Hge. cbn [monitor_loop_from].
  rewrite (monitor_iteration_network_error config s w w1 e Hf He).
  rewrite Z.geb_leb.
  by destruct (Z.leb_spec max_consecutive_errors (consecutive_errors s + 1));
    [|lia].
Qed.

Ltac failing_turn Hdown w e w1 He :=
  let Hf := fresh "Hf" in
  let Hfetch := fresh "Hfetch" in
  let r := fresh "r" in
  destruct (Hdown w) as (e & Hf & He);
  destruct (fetch_active_calls w) as [r w1] eqn:Hfetch;
  simpl in Hf; subst r;
  first
    [ rewrite (monitor_loop_from_backoff _ _ _ w w1 e Hfetch He)
        by (cbn; unfold max_consecutive_errors; lia)
    | rewrite (monitor_loop_from_fatal _ _ _ w w1 e Hfetch He)
        by (cbn; unfold max_consecutive_errors; lia) ];
  apply fetch_active_calls_sleeps in Hfetch.

Lemma monitor_loop_five_failures `{L : Library} `{Net : Network}
  (config : Config) (w : World) (turns : nat) :
  (forall w : World,
     exists e, fst (fetch_active_calls w) = Raises e
               /\ is_request_exception e = true) ->
  (5 <= turns)%nat ->
  exists e w',
    monitor_loop turns config w = (Stopped e, w')
    /\ is_request_exception e = true
    /\ sleeps (history w') = sleeps (history w) ++ [30; 60; 120; 240].
Proof.
  intros Hdown Hturns.
  do 5 (destruct turns as [|turns]; [lia|]). clear Hturns.
  unfold monitor_loop, LoopState_init.
  failing_turn Hdown w e1 w1 He1. cbn [loop_count consecutive_errors].
  set (w1' := record_event w1 _).
  failing_turn Hdown w1' e2 w2 He2. cbn [loop_count consecutive_errors].
  set (w2' := record_event w2 _).
  failing_turn Hdown w2' e3 w3 He3. cbn [loop_count consecutive_errors].
  set (w3' := record_event w3 _).
  failing_turn Hdown w3' e4 w4 He4. cbn [loop_count consecutive_errors].
  set (w4' := record_event w4 _).
  failing_turn Hdown w4' e5 w5 He5.
  exists e5, w5. split; [done|]. split; [done|].
  subst w1' w2' w3' w4'.
  repeat first
    [ match goal with
      | H : sleeps (history _) = _ |- _ => rewrite H; clear H
      end
    | progress cbn [record_event history]
    | rewrite sleeps_snoc_sleep ].
  rewrite <- !app_assoc. reflexivity.
Qed.

Example monitor_loop_network_down :
  @monitor_loop sample_library network_down 9 sample_config fresh_world
  = (Stopped ConnectionError,
     {| tracker := NotificationTracker_init;
        history := [Fetch (Raises ConnectionError); Sleep 30;
                    Fetch (Raises ConnectionError); Sleep 60;
                    Fetch (Raises ConnectionError); Sleep 120;
                    Fetch (Raises ConnectionError); Sleep 240;
                    Fetch (Raises ConnectionError)] |}).
Proof. vm_compute. reflexivity. Qed.

Example monitor_loop_network_up :
  sleeps (history (snd (@monitor_loop sample_library network_up 2
                          sample_config fresh_world)))
  = [30; 30]
  /\ List.filter is_delivery
       (history (snd (@monitor_loop sample_library network_up 2
                        sample_config fresh_world)))
     = [Post sample_call_2 (Returns (ok_response []))]
  /\ get_notification_count
       (tracker (snd (@monitor_loop sample_library network_up 2
                        sample_config fresh_world)))
     = 1%nat.
Proof. vm_compute. repeat split. Qed.

(** C4. The network-failure backoff [min(300, 30 * 2^(c-1))] is 30, 60,
    120, 240, 300 for the counter values 1 to 5. In a turn of the loop whose
    fetch fails with a network error, the counter is incremented; while it
    is still below the threshold 5 the loop sleeps the backoff time of the
    new counter value and goes on, and when it reaches 5 the loop is left by
    re-raising the error, without a sleep. So when every fetch fails, the
    loop started afresh sleeps 30, 60, 120 and 240 and terminates with the
    error of the fifth fetch. *)
Theorem backoff_and_termination `{L : Library} `{Net : Network} :
  (backoff_time 1 = 30 /\ backoff_time 2 = 60 /\ backoff_time 3 = 120
   /\ backoff_time 4 = 240 /\ backoff_time 5 = 300)
  /\ (forall config s w w1 e,
        fetch_active_calls w = (Raises e, w1) ->
        is_request_exception e = true ->
        (consecutive_errors s + 1 < 5 ->
         monitor_iteration config s w
         = (Returns {| loop_count := loop_count s + 1;
                       consecutive_errors := consecutive_errors s + 1 |},
            record_event w1 (Sleep (backoff_time (consecutive_errors s + 1)))))
        /\ (consecutive_errors s + 1 >= 5 ->
            monitor_iteration config s w = (Raises e, w1)))
  /\ (forall config w turns,
        (forall w : World,
           exists e, fst (fetch_active_calls w) = Raises e
                     /\ is_request_exception e = true) ->
        (5 <= turns)%nat ->
        exists e w',
          monitor_loop turns config w = (Stopped e, w')
          /\ is_request_exception e = true
          /\ sleeps (history w') = sleeps (history w) ++ [30; 60; 120; 240]).
Proof.
  split; [by repeat split|]. split.
  - intros config s w w1 e Hf He.
    rewrite (monitor_iteration_network_error config s w w1 e Hf He).
    rewrite Z.geb_leb. unfold max_consecutive_errors.
    destruct (Z.leb_spec 5 (consecutive_errors s + 1)); split; intros; [lia|done|done|lia].
  - intros config w turns. apply monitor_loop_five_failures.
Qed.

Lemma backoff_and_termination_witness :
  exists e w',
    @monitor_loop sample_library network_down 9 sample_config fresh_world
    = (Stopped e, w')
    /\ is_request_exception e = true
    /\ sleeps (history w') = [30; 60; 120; 240].
Proof.
  apply (proj2 (proj2 (@backoff_and_termination sample_library network_down))
           sample_config fresh_world 9%nat).
  - intros w. exists ConnectionError. split; reflexivity.
  - lia.
Defined.

(** * Further properties *)

(** ** Trimming and splitting *)

Lemma lstrip_head (s : pystr) :
  forall c r, lstrip s = c :: r -> is_space c = false.
Proof.
  induction s as [|d s IH]; intros c r; simpl; [done|].
  destruct (is_space d) eqn:Hd; [apply IH|]. by intros [= <- _].
Qed.

Lemma lstrip_suffix (s : pystr) : exists p, s = p ++ lstrip s.
Proof.
  induction s as [|d s [p IH]]; simpl; [by exists []|].
  destruct (is_space d).
  - exists (d :: p). simpl. by rewrite <- IH.
  - by exists [].
Qed.

Lemma rstrip_prefix (s : pystr) : exists q, s = rstrip s ++ q.
Proof.
  destruct (lstrip_suffix (reverse s)) as [p Hp]. exists (reverse p).
  unfold rstrip. rewrite <- reverse_app, <- Hp. by rewrite reverse_involutive.
Qed.

Lemma strip_trimmed (s : pystr) : trimmed (strip s).
Proof.
  unfold strip. split.
  - intros c r H. destruct (rstrip_prefix (lstrip s)) as [q Hq].
    rewrite H in Hq. by apply (lstrip_head s c (r ++ q)).
  - intros r c H. unfold rstrip in H.
    apply (f_equal reverse) in H.
    rewrite reverse_involutive, reverse_snoc in H.
    by apply (lstrip_head (reverse (lstrip s)) c (reverse r)).
Qed.

Lemma strip_elem (s : pystr) (c : char) : c ∈ strip s -> c ∈ s.
Proof.
  intros H. unfold strip in H.
  destruct (rstrip_prefix (lstrip s)) as [q Hq].
  destruct (lstrip_suffix s) as [p Hp].
  rewrite Hp, Hq. set_solver.
Qed.

Lemma split_no_separator (sep : char) (s : pystr) :
  forall piece, piece ∈ split sep s -> sep ∉ piece.
Proof.
  induction s as [|c s IH]; simpl; intros piece H.
  - apply list_elem_of_singleton in H as ->. apply not_elem_of_nil.
  - destruct (N.eqb_spec c sep) as [->|Hne].
    + apply elem_of_cons in H as [->|H]; [apply not_elem_of_nil|by apply IH].
    + destruct (split sep s) as [|w ws].
      * apply list_elem_of_singleton in H as ->.
        intros Hs. apply list_elem_of_singleton in Hs. congruence.
      * apply elem_of_cons in H as [->|H].
        -- specialize (IH w (list_elem_of_here _ _)).
           intros [?|?]%elem_of_cons; [congruence|done].
        -- apply IH. by apply list_elem_of_further.
Qed.

Lemma trimmed_nil : trimmed [].
Proof. split; intros ? ? H; [done|by destruct r]. Qed.

Lemma text_of_trimmed (elem : Element) : trimmed (text_of elem).
Proof.
  unfold text_of. destruct (text elem) as [t|]; [|apply trimmed_nil].
  destruct (truthy t); [apply strip_trimmed|apply trimmed_nil].
Qed.

Lemma child_text_trimmed (t : pystr) (call_element : Element) :
  trimmed (child_text t call_element).
Proof.
  unfold child_text. destruct (find t call_element); simpl;
    [apply text_of_trimmed|apply trimmed_nil].
Qed.

(** ** Config *)

(** The recipients kept by [Config.__init__] are clean: none is empty, none
    has whitespace at either end, none contains a comma; and the email
    channel is enabled exactly when the API key and the sender are non-empty
    and the recipient string has a comma-separated piece that is not
    blank. *)
Theorem Config_init_recipients `{L : Library}
  (topic term : pystr) (interval : Z) (key to from : option pystr) :
  let config := Config_init topic term interval key to from in
  (forall address, address ∈ email_to config ->
     address <> [] /\ trimmed address /\ 44%N ∉ address)
  /\ (email_enabled config = true
      <-> truthy_opt key = true /\ truthy_opt from = true
          /\ exists recipients piece,
               to = Some recipients /\ piece ∈ split 44%N recipients
               /\ strip piece <> []).
Proof.
  intros config. subst config. unfold Config_init; simpl. split.
  - intros address H. destruct (truthy_opt to); [|by apply elem_of_nil in H].
    apply list_elem_of_fmap in H as (piece & -> & H).
    apply list_elem_of_filter in H as [Hne Hin].
    split; [done|]. split; [apply strip_trimmed|].
    intros Hc. apply strip_elem in Hc.
    by apply (split_no_separator 44%N (default [] to) piece).
  - rewrite !andb_true_iff, bool_decide_eq_true.
    destruct to as [recipients|]; simpl.
    + destruct (truthy recipients) eqn:Ht.
      * split.
        -- intros [[Hk Hto] Hf]. split; [done|]. split; [done|].
           exists recipients.
           destruct (filter (fun email => strip email <> [])
                       (split 44%N recipients)) as [|piece ps] eqn:E; [done|].
           assert (Hp : piece ∈ filter (fun email => strip email <> [])
                          (split 44%N recipients))
             by (rewrite E; apply list_elem_of_here).
           apply list_elem_of_filter in Hp as [? ?]. by exists piece.
        -- intros (Hk & Hf & r & piece & [= <-] & Hin & Hne).
           split; [split; [done|]|done].
           intros E. apply fmap_nil_inv in E.
           assert (Hp : piece ∈ filter (fun email => strip email <> [])
                          (split 44%N recipients))
             by (by apply list_elem_of_filter).
           rewrite E in Hp. by apply elem_of_nil in Hp.
      * apply truthy_false in Ht as ->. split.
        -- by intros [[_ ?] _].
        -- intros (_ & _ & r & piece & [= <-] & Hin & Hne). simpl in Hin.
           apply list_elem_of_singleton in Hin as ->. done.
    + split; [by intros [[_ ?] _]|].
      by intros (_ & _ & r & piece & ? & _).
Qed.

Lemma upper_char_ascii `{L : Library} (c : char) :
  (c < 128)%N ->
  exists d, upper_char c = [d] /\ (d < 128)%N /\ upper_char d = [d].
Proof.
  intros Hc. unfold upper_char.
  destruct ((97 <=? c) && (c <=? 122))%N eqn:Hlow.
  - apply andb_true_iff in Hlow as [H1 H2].
    apply N.leb_le in H1, H2. exists (c - 32)%N.
    split; [done|]. split; [lia|].
    assert (Hup : ((97 <=? c - 32) && (c - 32 <=? 122))%N = false).
    { apply andb_false_iff. left. apply N.leb_gt. lia. }
    rewrite Hup. assert (Hlt : (c - 32 <? 128)%N = true) by (apply N.ltb_lt; lia).
    by rewrite Hlt.
  - exists c. apply N.ltb_lt in Hc as Hc'. by rewrite Hlow, Hc'.
Qed.

Lemma upper_ascii_idempotent `{L : Library} (s : pystr) :
  ascii_only s -> upper (upper s) = upper s.
Proof.
  unfold upper. induction 1 as [|c s Hc _ IH]; [done|].
  destruct (upper_char_ascii c Hc) as (d & Hd & _ & Hdd).
  cbn [mbind list_bind]. rewrite Hd. cbn [app mbind list_bind].
  rewrite Hdd. cbn [app]. f_equal. exact IH.
Qed.

(** The search term is upper-cased when the configuration is built and once
    more inside [search_calls_by_location]; for an ASCII term the second
    folding changes nothing, so searching with the configured term finds the
    same records as searching with the term as typed. *)
Theorem search_with_configured_term `{L : Library}
  (topic term : pystr) (interval : Z) (key to from : option pystr)
  (calls : list PoliceCall) :
  ascii_only term ->
  search_calls_by_location calls
    (search_term (Config_init topic term interval key to from))
  = search_calls_by_location calls term.
Proof.
  intros Hascii. unfold search_calls_by_location, Config_init; simpl.
  by rewrite (upper_ascii_idempotent term Hascii).
Qed.

Lemma search_with_configured_term_witness :
  @search_calls_by_location sample_library [sample_call_1; sample_call_2]
    (search_term sample_config)
  = @search_calls_by_location sample_library [sample_call_1; sample_call_2]
      (py "foreland").
Proof.
  apply (@search_with_configured_term sample_library).
  unfold ascii_only. repeat constructor.
Defined.

(** ** parse_active_calls: trimmed fields *)

(** Every record [parse_active_calls] returns has its four text fields
    trimmed: timestamp, category, location and district carry no whitespace
    at either end. *)
Theorem parsed_fields_trimmed `{L : Library}
  (raw_data : pystr) (calls : list PoliceCall) (call : PoliceCall) :
  parse_active_calls raw_data = Returns calls ->
  call ∈ calls ->
  trimmed (datetime_str call) /\ trimmed (call_type call)
  /\ trimmed (location call) /\ trimmed (district call).
Proof.
  intros Hcalls Hin.
  destruct (parse_active_calls_cases raw_data)
    as [[_ Hp]|[(_ & e & _ & Hp)|(_ & root & _ & Hp)]];
    rewrite Hp in Hcalls; injection Hcalls as <-;
    [by apply elem_of_nil in Hin..|].
  rewrite parse_calls_spec in Hin.
  apply list_elem_of_fmap in Hin as (call_element & -> & _).
  unfold record_of, PoliceCall_init; simpl.
  repeat split; apply child_text_trimmed.
Qed.

Lemma parsed_fields_trimmed_witness :
  trimmed (datetime_str sample_call_2) /\ trimmed (call_type sample_call_2)
  /\ trimmed (location sample_call_2) /\ trimmed (district sample_call_2).
Proof.
  apply (@parsed_fields_trimmed sample_library sample_feed
           [sample_call_1; sample_call_2]).
  - vm_compute. reflexivity.
  - apply list_elem_of_further, list_elem_of_here.
Defined.

(** ** search_calls_by_location: the empty term, composition *)

Lemma foldl_snoc_all {A} (f : A -> bool) (l : list A) :
  (forall x, f x = true) ->
  forall acc : list A,
    foldl (fun acc x => if f x then acc ++ [x] else acc) acc l = acc ++ l.
Proof.
  intros Hf. induction l as [|x l IH]; intros acc; simpl.
  - by rewrite app_nil_r.
  - by rewrite Hf, IH, <- app_assoc.
Qed.

(** The empty search term matches every call: the empty string is contained
    in every location, so the whole list comes back. *)
Theorem search_empty_term_matches_all `{L : Library} (calls : list PoliceCall) :
  search_calls_by_location calls [] = calls.
Proof.
  unfold search_calls_by_location. destruct calls as [|call calls]; [done|].
  change (upper []) with (@nil char).
  apply (foldl_snoc_all (fun c => str_in [] (upper (location c)))).
  intros c. destruct (upper (location c)); simpl; by rewrite ?startswith_nil.
Qed.

(** Filtering distributes over concatenation of feeds and filtering twice
    with the same term changes nothing more. *)
Theorem search_calls_by_location_compose `{L : Library}
  (calls calls' : list PoliceCall) (term : pystr) :
  search_calls_by_location (calls ++ calls') term
  = search_calls_by_location calls term ++ search_calls_by_location calls' term
  /\ search_calls_by_location (search_calls_by_location calls term) term
     = search_calls_by_location calls term.
Proof.
  rewrite !search_calls_by_location_filter. split.
  - apply filter_app.
  - rewrite list_filter_filter. apply list_filter_iff. tauto.
Qed.

(** ** NotificationTracker: what a run of operations leaves marked *)

(** After any sequence of tracker operations an id is reported as notified
    exactly when it was marked before the sequence or the sequence marks
    it: nothing is forgotten and nothing is reported that was never
    marked. *)
Theorem tracker_lookup_after_run (ops : list tracker_op) :
  forall (t : NotificationTracker) (i : pystr),
    is_already_notified (tracker_run t ops) i = true
    <-> is_already_notified t i = true \/ OpMarkAsNotified i ∈ ops.
Proof.
  unfold tracker_run.
  induction ops as [|op ops IH]; intros t i; cbn [foldl].
  - split; [by left|]. intros [H|H]; [done|by apply elem_of_nil in H].
  - rewrite IH, elem_of_cons. destruct op as [j|j|]; cbn [tracker_apply].
    + split; [intros [?|?]; auto|intros [?|[?|?]]; auto; done].
    + unfold is_already_notified, mark_as_notified; cbn [notified_incidents].
      rewrite !bool_decide_eq_true, elem_of_union, elem_of_singleton.
      split.
      * intros [[->|?]|?]; auto.
      * intros [?|[[= ->]|?]]; auto.
    + split; [intros [?|?]; auto|intros [?|[?|?]]; auto; done].
Qed.

(** ** send_notification: no repeat after a success, a retry after a failure *)

Lemma is_already_notified_mark (t : NotificationTracker) (i : pystr) :
  is_already_notified (mark_as_notified t i) i = true.
Proof.
  unfold is_already_notified, mark_as_notified; simpl.
  apply bool_decide_eq_true, elem_of_union_l. by apply elem_of_singleton.
Qed.

(** Once [send_notification] has succeeded for an incident, the next call
    for a record with the same incident number, whatever its other fields
    and whatever the configuration, sends nothing and returns [False]. *)
Theorem send_notification_not_repeated `{Net : Network}
  (call call' : PoliceCall) (config config' : Config) (w : World) :
  incident_number call' = incident_number call ->
  fst (send_notification call config w) = true ->
  send_notification call' config' (snd (send_notification call config w))
  = (false, snd (send_notification call config w)).
Proof.
  intros Hid Hsent.
  pose proof (send_notification_cases call config w) as H. cbv zeta in H.
  destruct H as [[_ E]|[(_ & _ & E)|(_ & _ & E)]];
    rewrite E in Hsent |- *; [done..|]. cbn [snd].
  pose proof (send_notification_cases call' config'
    {| tracker := mark_as_notified (tracker w) (incident_number call);
       history := history w ++ [Post call (requests_post (history w) call)] |})
    as H.
  cbv zeta in H. cbn [tracker history] in H.
  rewrite Hid, is_already_notified_mark in H.
  by destruct H as [[_ E']|[(? & _)|(? & _)]].
Qed.

Lemma send_notification_not_repeated_witness :
  @send_notification network_up sample_call_2 sample_config
    (snd (@send_notification network_up sample_call_2 sample_config_email
            fresh_world))
  = (false,
     snd (@send_notification network_up sample_call_2 sample_config_email
            fresh_world)).
Proof.
  apply (@send_notification_not_repeated network_up); reflexivity.
Defined.

(** A failed push send leaves the incident unmarked, so the next call of
    [send_notification] for it issues a request again: a failure is retried,
    not remembered. *)
Theorem send_notification_retried_after_failure `{Net : Network}
  (call : PoliceCall) (config : Config) (w : World) :
  is_already_notified (tracker w) (incident_number call) = false ->
  fst (send_notification call config w) = false ->
  let w1 := snd (send_notification call config w) in
  history (snd (send_notification call config w1))
  = history w1 ++ [Post call (requests_post (history w1) call)].
Proof.
  intros Hfresh Hfail w1. subst w1.
  pose proof (send_notification_cases call config w) as H. cbv zeta in H.
  destruct H as [[Hd _]|[(_ & _ & E)|(_ & _ & E)]];
    [congruence| |by rewrite E in Hfail].
  rewrite E. cbn [snd].
  pose proof (send_notification_cases call config
    (record_event w (Post call (requests_post (history w) call)))) as H.
  cbv zeta in H. cbn [record_event tracker history] in H.
  rewrite Hfresh in H.
  by destruct H as [[? _]|[(_ & _ & ->)|(_ & _ & ->)]].
Qed.

Lemma send_notification_retried_after_failure_witness :
  history (snd (@send_notification network_flaky sample_call_2 sample_config
                  (snd (@send_notification network_flaky sample_call_2
                          sample_config fresh_world))))
  = [Post sample_call_2 (Raises Timeout);
     Post sample_call_2 (Returns (ok_response []))].
Proof.
  apply (@send_notification_retried_after_failure network_flaky
           sample_call_2 sample_config fresh_world); reflexivity.
Defined.

(** ** process_and_notify_matches: requests and emails of a batch *)

Lemma send_email_notification_cases `{Net : Network}
  (call : PoliceCall) (config : Config) (w : World) :
  snd (send_email_notification call config w)
  = record_event w
      (if email_enabled config
       then EmailSend call (resend_send (history w) call)
       else EmailSkipped call).
Proof.
  unfold send_email_notification. destruct (email_enabled config); simpl; [|done].
  by destruct (resend_send (history w) call) as [[?|]|?].
Qed.

Lemma notify_call_trace `{Net : Network}
  (config : Config) (n : nat) (w : World) (call : PoliceCall) :
  let r := requests_post (history w) call in
  let e := if email_enabled config
           then EmailSend call (resend_send (history w ++ [Post call r]) call)
           else EmailSkipped call in
  (is_already_notified (tracker w) (incident_number call) = true
   /\ notify_call config (n, w) call = (n, w))
  \/ (is_already_notified (tracker w) (incident_number call) = false
      /\ notify_call config (n, w) call = (n, record_event w (Post call r)))
  \/ (is_already_notified (tracker w) (incident_number call) = false
      /\ notify_call config (n, w) call
         = (S n,
            {| tracker := mark_as_notified (tracker w) (incident_number call);
               history := history w ++ [Post call r; e] |})).
Proof.
  intros r e. subst r e. unfold notify_call.
  pose proof (send_notification_cases call config w) as H. cbv zeta in H.
  destruct H as [[Hd ->]|[(Hd & _ & ->)|(Hd & _ & ->)]].
  - by left.
  - right. by left.
  - right. right. split; [done|].
    destruct (send_email_notification call config _) as [b w'] eqn:E.
    apply (f_equal snd) in E. rewrite send_email_notification_cases in E.
    simpl in E. subst w'. unfold record_event; simpl.
    by rewrite <- app_assoc.
Qed.

(** The shape of what a stretch of the notification loop over [calls] did,
    from the count [n] and world [w] to [n'] and [w']. *)
Lemma foldl_notify_call_trace `{Net : Network}
  (config : Config) (calls : list PoliceCall) :
  forall (n : nat) (w : World),
  exists events,
    history (snd (foldl (notify_call config) (n, w) calls)) = history w ++ events
    /\ notified_incidents (tracker w)
       ⊆ notified_incidents (tracker (snd (foldl (notify_call config) (n, w) calls)))
    /\ (length (List.filter is_post events) <= length calls)%nat
    /\ (fst (foldl (notify_call config) (n, w) calls)
        <= n + length (List.filter is_post events))%nat
    /\ length (List.filter is_email_send events)
       = (if email_enabled config
          then fst (foldl (notify_call config) (n, w) calls) - n
          else 0)%nat
    /\ (n <= fst (foldl (notify_call config) (n, w) calls))%nat
    /\ (forall call r,
          Post call r ∈ events ->
          call ∈ calls
          /\ is_already_notified (tracker w) (incident_number call) = false).
Proof.
  induction calls as [|call calls IH]; intros n w; cbn [foldl].
  - exists []. rewrite app_nil_r. cbn [fst snd List.filter length].
    split; [done|]. split; [done|]. split; [lia|]. split; [lia|].
    split; [destruct (email_enabled config); lia|]. split; [lia|].
    intros call r H. by apply elem_of_nil in H.
  - pose proof (notify_call_trace config n w call) as H. cbv zeta in H.
    destruct H as [[Hd ->]|[(Hd & ->)|(Hd & ->)]].
    + destruct (IH n w) as (events & Hh & Hs & Hp & Hn & He & Hle & Hpost).
      exists events.
      split; [done|]. split; [done|]. split; [cbn [length]; lia|].
      split; [done|]. split; [done|]. split; [done|].
      intros call0 r Hin. destruct (Hpost call0 r Hin) as [? ?].
      split; [by apply list_elem_of_further|done].
    + destruct (IH n (record_event w (Post call (requests_post (history w) call))))
        as (events & Hh & Hs & Hp & Hn & He & Hle & Hpost).
      cbn [record_event tracker history] in Hh, Hs, Hpost.
      exists (Post call (requests_post (history w) call) :: events).
      cbn [List.filter is_post is_email_send length].
      split; [by rewrite Hh, <- app_assoc|]. split; [done|].
      split; [lia|]. split; [lia|]. split; [done|]. split; [done|].
      intros call0 r Hin.
      apply elem_of_cons in Hin as [[= -> _]|Hin];
        [split; [apply list_elem_of_here|done]|].
      destruct (Hpost call0 r Hin) as [? ?].
      split; [by apply list_elem_of_further|done].
    + set (r := requests_post (history w) call) in *.
      set (e := if email_enabled config
                then EmailSend call (resend_send (history w ++ [Post call r]) call)
                else EmailSkipped call) in *.
      destruct (IH (S n)
                  {| tracker := mark_as_notified (tracker w) (incident_number call);
                     history := history w ++ [Post call r; e] |})
        as (events & Hh & Hs & Hp & Hn & He & Hle & Hpost).
      cbn [tracker history] in Hh, Hs, Hpost.
      exists (Post call r :: e :: events).
      assert (Hsub : notified_incidents (tracker w)
                     ⊆ notified_incidents
                         (mark_as_notified (tracker w) (incident_number call)))
        by (unfold mark_as_notified; simpl; apply union_subseteq_r).
      split; [rewrite Hh, <- app_assoc; done|].
      split; [by etransitivity|].
      assert (Hpe : is_post e = false) by (subst e; by destruct (email_enabled config)).
      cbn [List.filter is_post length]. rewrite Hpe.
      split; [cbn [length]; lia|]. split; [cbn [length]; lia|].
      split.
      { subst e. cbn [List.filter is_email_send].
        destruct (email_enabled config); cbn [is_email_send length]; lia. }
      split; [lia|].
      intros call0 r0 Hin.
      apply elem_of_cons in Hin as [[= -> _]|Hin];
        [split; [apply list_elem_of_here|done]|].
      apply elem_of_cons in Hin as [Hin|Hin].
      { subst e. by destruct (email_enabled config). }
      destruct (Hpost call0 r0 Hin) as [Hc Hnew].
      split; [by apply list_elem_of_further|].
      apply bool_decide_eq_false in Hnew. apply bool_decide_eq_false.
      intros Hold. apply Hnew. by apply Hsub.
Qed.

Lemma posted_calls_app (l k : list event) :
  posted_calls (l ++ k) = posted_calls l ++ posted_calls k.
Proof. unfold posted_calls. apply omap_app. Qed.

Lemma posted_calls_length (events : list event) :
  length (posted_calls events) = length (List.filter is_post events).
Proof.
  induction events as [|e events IH]; [done|].
  destruct e; cbn [posted_calls omap list_omap List.filter is_post length];
    by rewrite <- ?IH.
Qed.

Lemma posted_calls_elem (call : PoliceCall) (events : list event) :
  call ∈ posted_calls events -> exists r, Post call r ∈ events.
Proof.
  induction events as [|e events IH]; [by intros ?%elem_of_nil|].
  destruct e as [|c r| | |]; cbn [posted_calls omap list_omap]; intros H;
    try (destruct (IH H) as [r' ?]; exists r'; by apply list_elem_of_further).
  apply elem_of_cons in H as [->|H].
  - exists r. apply list_elem_of_here.
  - destruct (IH H) as [r' ?]. exists r'. by apply list_elem_of_further.
Qed.

Lemma foldl_notify_call_posted `{Net : Network}
  (config : Config) (calls : list PoliceCall) :
  forall (n : nat) (w : World),
  exists events,
    history (snd (foldl (notify_call config) (n, w) calls)) = history w ++ events
    /\ sublist (posted_calls events) calls.
Proof.
  induction calls as [|call calls IH]; intros n w; cbn [foldl].
  - exists []. rewrite app_nil_r. split; [done|constructor].
  - pose proof (notify_call_trace config n w call) as H. cbv zeta in H.
    destruct H as [[_ ->]|[(_ & ->)|(_ & ->)]].
    + destruct (IH n w) as (events & Hh & Hs).
      exists events. split; [done|]. by apply sublist_cons.
    + destruct (IH n (record_event w (Post call (requests_post (history w) call))))
        as (events & Hh & Hs).
      exists (Post call (requests_post (history w) call) :: events).
      cbn [record_event history] in Hh. split; [by rewrite Hh, <- app_assoc|].
      cbn [posted_calls omap list_omap]. by apply sublist_skip.
    + set (r := requests_post (history w) call) in *.
      set (e := if email_enabled config
                then EmailSend call (resend_send (history w ++ [Post call r]) call)
                else EmailSkipped call) in *.
      destruct (IH (S n)
                  {| tracker := mark_as_notified (tracker w) (incident_number call);
                     history := history w ++ [Post call r; e] |})
        as (events & Hh & Hs).
      exists (Post call r :: e :: events).
      cbn [history] in Hh. split; [by rewrite Hh, <- app_assoc|].
      assert (He : posted_calls (e :: events) = posted_calls events)
        by (subst e; by destruct (email_enabled config)).
      change (posted_calls (Post call r :: e :: events))
        with (call :: posted_calls (e :: events)).
      rewrite He. by apply sublist_skip.
Qed.

(** A batch issues at most one push request per matching call, in the order
    of the batch: the calls it requests for form a subsequence of the batch.
    It requests for no incident that was already marked when the batch
    began, and the number the function returns never exceeds the number of
    requests it made. *)
Theorem batch_requests_bounded `{Net : Network}
  (calls : list PoliceCall) (config : Config) (w : World) :
  exists events,
    history (snd (process_and_notify_matches calls config w))
    = history w ++ events
    /\ sublist (posted_calls events) calls
    /\ (fst (process_and_notify_matches calls config w)
        <= length (posted_calls events))%nat
    /\ (forall call,
          call ∈ posted_calls events ->
          is_already_notified (tracker w) (incident_number call) = false).
Proof.
  assert (E : process_and_notify_matches calls config w
              = foldl (notify_call config) (0%nat, w) calls)
    by (by destruct calls).
  rewrite E.
  destruct (foldl_notify_call_trace config calls 0 w)
    as (events & Hh & _ & _ & Hn & _ & _ & Hpost).
  destruct (foldl_notify_call_posted config calls 0 w) as (events' & Hh' & Hs).
  assert (events' = events) as ->
    by (rewrite Hh in Hh'; by apply app_inv_head in Hh').
  exists events. split; [done|]. split; [done|].
  split; [rewrite posted_calls_length; lia|].
  intros call Hin. destruct (posted_calls_elem call events Hin) as [r Hr].
  by destruct (Hpost call r Hr).
Qed.

(** With the email channel enabled a batch calls the email provider exactly
    once for each successful push send it counts; with the channel disabled
    it never calls the provider. *)
Theorem batch_emails_follow_config `{Net : Network}
  (calls : list PoliceCall) (config : Config) (w : World) :
  exists events,
    history (snd (process_and_notify_matches calls config w))
    = history w ++ events
    /\ length (List.filter is_email_send events)
       = if email_enabled config
         then fst (process_and_notify_matches calls config w)
         else 0%nat.
Proof.
  assert (E : process_and_notify_matches calls config w
              = foldl (notify_call config) (0%nat, w) calls)
    by (by destruct calls).
  rewrite E.
  destruct (foldl_notify_call_trace config calls 0 w)
    as (events & Hh & _ & _ & _ & He & _ & _).
  exists events. split; [done|]. rewrite He.
  destruct (email_enabled config); lia.
Qed.

Lemma process_duplicates `{Net : Network}
  (calls : list PoliceCall) (config : Config) (w : World) :
  Forall (fun call =>
            is_already_notified (tracker w) (incident_number call) = true)
         calls ->
  process_and_notify_matches calls config w = (0%nat, w).
Proof.
  intros Hall.
  assert (E : process_and_notify_matches calls config w
              = foldl (notify_call config) (0%nat, w) calls)
    by (by destruct calls).
  rewrite E. clear E.
  induction Hall as [|call calls Hd _ IH]; cbn [foldl]; [done|].
  pose proof (notify_call_trace config 0 w call) as H. cbv zeta in H.
  destruct H as [[_ ->]|[(Hn & _)|(Hn & _)]]; [exact IH|congruence..].
Qed.

(** A batch in which every incident is already marked does nothing: no
    request, no email, no change of the tracker, and the count returned
    is 0. *)
Theorem batch_of_duplicates_is_silent `{Net : Network}
  (calls : list PoliceCall) (config : Config) (w : World) :
  Forall (fun call =>
            is_already_notified (tracker w) (incident_number call) = true)
         calls ->
  process_and_notify_matches calls config w = (0%nat, w).
Proof. apply process_duplicates. Qed.

Lemma batch_of_duplicates_is_silent_witness :
  @process_and_notify_matches network_up [sample_call_2; sample_call_2]
    sample_config_email notified_world
  = (0%nat, notified_world).
Proof.
  apply (@batch_of_duplicates_is_silent network_up).
  repeat constructor.
Defined.

Lemma foldl_notify_call_marks `{Net : Network} (config : Config) :
  (forall h call, push_delivered (requests_post h call)) ->
  forall (calls : list PoliceCall) (n : nat) (w : World),
    Forall (fun call =>
              is_already_notified
                (tracker (snd (foldl (notify_call config) (n, w) calls)))
                (incident_number call) = true)
           calls.
Proof.
  intros Hok. induction calls as [|call calls IH]; intros n w; [constructor|].
  cbn [foldl].
  assert (Hstep : is_already_notified
                    (tracker (snd (notify_call config (n, w) call)))
                    (incident_number call) = true).
  { pose proof (notify_call_cases config n w call) as H. cbv zeta in H.
    destruct H as [[Hd ->]|[(_ & Hf & _)|(_ & _ & e & _ & ->)]].
    - done.
    - destruct (push_delivered_not_failed _ (Hok (history w) call) Hf).
    - apply is_already_notified_mark. }
  destruct (notify_call config (n, w) call) as [n1 w1]. cbn [snd] in Hstep.
  constructor; [|apply IH].
  destruct (foldl_notify_call_trace config calls n1 w1) as (_ & _ & Hs & _).
  apply bool_decide_eq_true in Hstep. apply bool_decide_eq_true.
  by apply Hs.
Qed.

(** When every push send succeeds, a batch marks each of its incidents, so
    the same batch processed again right away (the next poll returning the
    same records) is silent: no request, no email, count 0. *)
Theorem repeated_batch_is_silent `{Net : Network}
  (calls : list PoliceCall) (config : Config) (w : World) :
  (forall h call, push_delivered (requests_post h call)) ->
  process_and_notify_matches calls config
    (snd (process_and_notify_matches calls config w))
  = (0%nat, snd (process_and_notify_matches calls config w)).
Proof.
  intros Hok. apply process_duplicates.
  assert (E : process_and_notify_matches calls config w
              = foldl (notify_call config) (0%nat, w) calls)
    by (by destruct calls).
  rewrite E. by apply foldl_notify_call_marks.
Qed.

Lemma repeated_batch_is_silent_witness :
  @process_and_notify_matches network_up [sample_call_1; sample_call_2]
    sample_config_email
    (snd (@process_and_notify_matches network_up [sample_call_1; sample_call_2]
            sample_config_email fresh_world))
  = (0%nat,
     snd (@process_and_notify_matches network_up [sample_call_1; sample_call_2]
            sample_config_email fresh_world)).
Proof.
  apply (@repeated_batch_is_silent network_up).
  intros h call. by exists (ok_response []).
Defined.

(** ** monitor_loop: what a whole run keeps *)

Lemma run_effect_of_batch
  (n0 n : nat) (w0 w : World) (events : list event) :
  batch_effect n0 w0 n w events -> run_effect w0 w events.
Proof.
  intros (Hh & Hg & _ & Hrest). unfold run_effect, batch_effect.
  split; [done|]. split; [done|]. split; [done|]. exact Hrest.
Qed.

Lemma run_effect_refl (w : World) : run_effect w w [].
Proof. apply (batch_effect_refl 0 w). Qed.

Lemma run_effect_trans (w0 w1 w2 : World) (l k : list event) :
  run_effect w0 w1 l -> run_effect w1 w2 k -> run_effect w0 w2 (l ++ k).
Proof.
  intros Hl Hk. unfold run_effect. rewrite deliveries_app.
  apply (batch_effect_trans 0 (deliveries l) _ w0 w1 w2 l k Hl).
  destruct Hk as (Hh & Hg & _ & Hrest). unfold batch_effect.
  split; [done|]. split; [done|]. split; [done|]. exact Hrest.
Qed.

Lemma run_effect_quiet (w : World) (e : event) :
  is_post e = false -> (forall call, ~ is_email_event call e) ->
  run_effect w (record_event w e) [e].
Proof.
  intros Hp He.
  assert (Hd : is_delivery e = false) by (by destruct e).
  assert (Hdo : forall i, deliveries_of i [e] = 0%nat).
  { intros i. unfold deliveries_of. cbn [List.filter].
    by destruct e. }
  unfold run_effect, batch_effect, deliveries. cbn [List.filter].
  rewrite Hd. cbn [length record_event tracker history].
  split; [done|]. split.
  { intros before x after call H Hx.
    destruct before as [|b before]; [|by destruct before].
    injection H as <- _. by destruct (He call). }
  split; [done|]. split; [lia|]. split; [done|].
  split; [|split]; intros i; rewrite Hdo; [lia|done|done].
Qed.

Lemma time_sleep_effect `{Net : Network} (seconds : Z) (w : World) :
  exists events, run_effect w (snd (time_sleep seconds w)) events.
Proof.
  destruct (time_sleep_cases seconds w) as [->|(e & _ & ->)]; simpl.
  - exists [Sleep seconds]. apply run_effect_quiet; [done|].
    by intros call [?|[? ?]].
  - exists []. apply run_effect_refl.
Qed.

Lemma fetch_active_calls_effect `{Net : Network} (w : World) :
  exists events, run_effect w (snd (fetch_active_calls w)) events.
Proof.
  rewrite fetch_active_calls_world. eexists. apply run_effect_quiet; [done|].
  by intros call [?|[? ?]].
Qed.

Lemma monitor_try_effect `{L : Library} `{Net : Network}
  (config : Config) (s : LoopState) (w : World) :
  exists events, run_effect w (snd (monitor_try config s w)) events.
Proof.
  unfold monitor_try.
  destruct (fetch_active_calls_effect w) as [l Hl].
  destruct (fetch_active_calls w) as [[raw_data|e] w1]; cbn [snd] in Hl |- *;
    [|by exists l].
  destruct (parse_active_calls raw_data) as [active_calls|e]; [|by exists l].
  set (matching := search_calls_by_location active_calls (search_term config)).
  assert (Hm : exists k,
    run_effect w1
      match matching with
      | [] => w1
      | _ :: _ => snd (process_and_notify_matches matching config w1)
      end k).
  { destruct matching as [|c m] eqn:Em.
    - exists []. apply run_effect_refl.
    - destruct (process_and_notify_matches_effect (c :: m) config w1)
        as [k Hk].
      exists k. by apply run_effect_of_batch in Hk. }
  destruct Hm as [k Hk].
  set (w2 := match matching with
             | [] => w1
             | _ :: _ => snd (process_and_notify_matches matching config w1)
             end) in *.
  destruct (time_sleep_effect (poll_interval config) w2) as [j Hj].
  destruct (time_sleep (poll_interval config) w2) as [slept w3].
  exists (l ++ k ++ j). cbn [snd] in Hj |- *.
  apply (run_effect_trans w w1 w3 l (k ++ j) Hl).
  by apply (run_effect_trans w1 w2 w3 k j).
Qed.

Lemma monitor_iteration_effect `{L : Library} `{Net : Network}
  (config : Config) (s : LoopState) (w : World) :
  exists events, run_effect w (snd (monitor_iteration config s w)) events.
Proof.
  unfold monitor_iteration.
  destruct (monitor_try_effect config s w) as [l Hl].
  destruct (monitor_try config s w) as [[r c] w1]. cbn [snd] in Hl.
  destruct r as [[]|e]; [by exists l|].
  destruct (is_request_exception e).
  - destruct (c + 1 >=? max_consecutive_errors); [by exists l|].
    destruct (time_sleep_effect (backoff_time (c + 1)) w1) as [k Hk].
    destruct (time_sleep (backoff_time (c + 1)) w1) as [slept w2].
    cbn [snd] in Hk. exists (l ++ k).
    destruct slept; cbn [snd]; by apply (run_effect_trans w w1 w2).
  - destruct (c + 1 >=? max_consecutive_errors); [by exists l|].
    destruct (time_sleep_effect 60 w1) as [k Hk].
    destruct (time_sleep 60 w1) as [slept w2].
    cbn [snd] in Hk. exists (l ++ k).
    destruct slept; cbn [snd]; by apply (run_effect_trans w w1 w2).
Qed.

Lemma monitor_loop_from_effect `{L : Library} `{Net : Network}
  (turns : nat) (config : Config) :
  forall (s : LoopState) (w : World),
  exists events,
    run_effect w (snd (monitor_loop_from turns config s w)) events.
Proof.
  induction turns as [|turns IH]; intros s w; cbn [monitor_loop_from].
  - exists []. apply run_effect_refl.
  - destruct (monitor_iteration_effect config s w) as [l Hl].
    destruct (monitor_iteration config s w) as [[s'|e] w1]; cbn [snd] in Hl.
    + destruct (IH s' w1) as [k Hk]. exists (l ++ k).
      by apply (run_effect_trans w w1).
    + by exists l.
Qed.

(** Over a whole run of the loop, whatever the feed and the channels
    answer, no incident is notified twice: for each incident id the run
    makes at most one successful push send, and none at all for an id that
    was marked when the run began; and the email channel stays gated by the
    push channel across polls. *)
Theorem monitor_loop_at_most_once `{L : Library} `{Net : Network}
  (turns : nat) (config : Config) (w : World) :
  exists events,
    history (snd (monitor_loop turns config w)) = history w ++ events
    /\ (forall i, (deliveries_of i events <= 1)%nat)
    /\ (forall i, is_already_notified (tracker w) i = true ->
                  deliveries_of i events = 0%nat)
    /\ email_gated events.
Proof.
  destruct (monitor_loop_from_effect turns config LoopState_init w)
    as (events & Hh & Hg & _ & _ & _ & Hle & Hold & _).
  exists events. split; [done|]. split; [done|]. split; [|done].
  intros i Hi. apply Hold. by apply bool_decide_eq_true in Hi.
Qed.

(** The tracker never forgets during a run: every id marked at the start is
    still marked after any number of turns, and the tracker has grown by
    exactly the number of successful push sends of the run. *)
Theorem monitor_loop_keeps_marks `{L : Library} `{Net : Network}
  (turns : nat) (config : Config) (w : World) :
  notified_incidents (tracker w)
  ⊆ notified_incidents (tracker (snd (monitor_loop turns config w)))
  /\ exists events,
       history (snd (monitor_loop turns config w)) = history w ++ events
       /\ get_notification_count (tracker (snd (monitor_loop turns config w)))
          = (get_notification_count (tracker w) + deliveries events)%nat.
Proof.
  destruct (monitor_loop_from_effect turns config LoopState_init w)
    as (events & Hh & _ & _ & Hc & Hs & _).
  split; [done|]. by exists events.
Qed.

(** The count of the final summary of [main] is the number of successful
    push sends of the session, whether the loop is still running or was left
    by an exception. *)
Theorem main_summary_counts_deliveries `{L : Library} `{Net : Network}
  (turns : nat) (config : Config) :
  snd (fst (main turns config)) = deliveries (history (snd (main turns config))).
Proof.
  unfold main.
  destruct (monitor_loop_from_effect turns config LoopState_init
              {| tracker := NotificationTracker_init; history := [] |})
    as (events & Hh & _ & _ & Hc & _).
  fold (monitor_loop turns config
          {| tracker := NotificationTracker_init; history := [] |}) in Hh, Hc.
  destruct (monitor_loop turns config _) as [[s|e] w'];
    cbn [fst snd tracker history] in *; by rewrite Hc, Hh.
Qed.

(** ** monitor_loop: resets, liveness and the shared counter *)

Lemma parse_active_calls_returns `{L : Library} (raw_data : pystr) :
  exists calls, parse_active_calls raw_data = Returns calls.
Proof.
  destruct (parse_active_calls_cases raw_data)
    as [[_ Hp]|[(_ & e & _ & Hp)|(_ & root & _ & Hp)]]; eauto.
Qed.

Lemma monitor_try_fetched `{L : Library} `{Net : Network}
  (config : Config) (s : LoopState) (w w1 : World) (raw_data : pystr) :
  fetch_active_calls w = (Returns raw_data, w1) ->
  exists w2,
    monitor_try config s w
    = (fst (time_sleep (poll_interval config) w2), 0,
       snd (time_sleep (poll_interval config) w2)).
Proof.
  intros Hf. unfold monitor_try. rewrite Hf.
  destruct (parse_active_calls_returns raw_data) as [calls ->].
  set (matching := search_calls_by_location calls (search_term config)).
  exists (match matching with
          | [] => w1
          | _ :: _ => snd (process_and_notify_matches matching config w1)
          end).
  by destruct (time_sleep (poll_interval config) _).
Qed.

Lemma monitor_iteration_fetched `{L : Library} `{Net : Network}
  (config : Config) (s : LoopState) (w w1 : World) (raw_data : pystr) :
  fetch_active_calls w = (Returns raw_data, w1) ->
  0 <= poll_interval config <= SLEEP_ALWAYS_ADMITTED ->
  exists w2,
    monitor_iteration config s w
    = (Returns {| loop_count := loop_count s + 1; consecutive_errors := 0 |},
       record_event w2 (Sleep (poll_interval config))).
Proof.
  intros Hf Hp. unfold monitor_iteration.
  destruct (monitor_try_fetched config s w w1 raw_data Hf) as [w2 ->].
  exists w2. by rewrite (time_sleep_admitted _ w2 Hp).
Qed.

(** A turn whose fetch succeeds resets the error counter, whatever it was
    and whatever the notification channels answer, and ends with the sleep
    of the poll interval, when that is a length [time.sleep] accepts: not
    negative and at most [SLEEP_ALWAYS_ADMITTED] seconds. *)
Theorem successful_turn_resets_counter `{L : Library} `{Net : Network}
  (config : Config) (s : LoopState) (w w1 : World) (raw_data : pystr) :
  fetch_active_calls w = (Returns raw_data, w1) ->
  0 <= poll_interval config <= SLEEP_ALWAYS_ADMITTED ->
  exists w2,
    monitor_iteration config s w
    = (Returns {| loop_count := loop_count s + 1; consecutive_errors := 0 |},
       record_event w2 (Sleep (poll_interval config))).
Proof. apply monitor_iteration_fetched. Qed.

Lemma successful_turn_resets_counter_witness :
  exists w2,
    @monitor_iteration sample_library network_up sample_config
      {| loop_count := 7; consecutive_errors := 4 |} fresh_world
    = (Returns {| loop_count := 7 + 1; consecutive_errors := 0 |},
       record_event w2 (Sleep (poll_interval sample_config))).
Proof.
  apply (@successful_turn_resets_counter sample_library network_up
           sample_config {| loop_count := 7; consecutive_errors := 4 |}
           fresh_world
           (record_event fresh_world (Fetch (Returns (ok_response sample_feed))))
           sample_feed).
  - reflexivity.
  - vm_compute. split; discriminate.
Defined.

(** While the feed answers and the poll interval is a length [time.sleep]
    accepts (not negative, at most [SLEEP_ALWAYS_ADMITTED] seconds) the loop
    never stops: after any number of turns it is still running, with the
    error counter at zero, whatever the notification channels answer.
    Failures of the push and email channels never end the monitor. *)
Theorem monitor_loop_runs_while_feed_answers `{L : Library} `{Net : Network}
  (config : Config) (turns : nat) (w : World) :
  (forall w : World, exists raw_data,
      fst (fetch_active_calls w) = Returns raw_data) ->
  0 <= poll_interval config <= SLEEP_ALWAYS_ADMITTED ->
  exists w',
    monitor_loop turns config w
    = (Running {| loop_count := Z.of_nat turns; consecutive_errors := 0 |}, w').
Proof.
  intros Hup Hp. unfold monitor_loop, LoopState_init.
  assert (Hgen : forall (turns : nat) (c : Z) (w : World),
    exists w',
      monitor_loop_from turns config
        {| loop_count := c; consecutive_errors := 0 |} w
      = (Running {| loop_count := c + Z.of_nat turns;
                    consecutive_errors := 0 |}, w')).
  { clear turns w. induction turns as [|turns IH]; intros c w.
    - exists w. cbn [monitor_loop_from]. by rewrite Z.add_0_r.
    - cbn [monitor_loop_from]. destruct (Hup w) as [raw_data Hraw].
      destruct (fetch_active_calls w) as [r w1] eqn:Hf. simpl in Hraw. subst r.
      destruct (monitor_iteration_fetched config
                  {| loop_count := c; consecutive_errors := 0 |}
                  w w1 raw_data Hf Hp) as [w2 ->].
      cbn [loop_count].
      destruct (IH (c + 1) (record_event w2 (Sleep (poll_interval config))))
        as [w' ->].
      exists w'. do 3 f_equal. lia. }
  destruct (Hgen turns 0 w) as [w' ->]. by exists w'.
Qed.

Lemma monitor_loop_runs_while_feed_answers_witness :
  exists w',
    @monitor_loop sample_library network_flaky 6 sample_config fresh_world
    = (Running {| loop_count := Z.of_nat 6; consecutive_errors := 0 |}, w').
Proof.
  apply (@monitor_loop_runs_while_feed_answers sample_library network_flaky).
  - intros w. exists sample_feed. reflexivity.
  - vm_compute. split; discriminate.
Defined.

(** With a negative poll interval, [time.sleep] raises after the counter
    was reset, so every turn whose fetch succeeds ends in the generic
    handler with the counter at 1 and a sleep of 60: the loop polls every 60
    seconds and the threshold is never reached. *)
Theorem negative_poll_interval_polls_every_sixty `{L : Library} `{Net : Network}
  (config : Config) (turns : nat) (w : World) :
  (forall w : World, exists raw_data,
      fst (fetch_active_calls w) = Returns raw_data) ->
  poll_interval config < 0 ->
  (forall s w, exists w2,
      monitor_iteration config s w
      = (Returns {| loop_count := loop_count s + 1; consecutive_errors := 1 |},
         record_event w2 (Sleep 60)))
  /\ exists s' w',
       monitor_loop turns config w = (Running s', w')
       /\ loop_count s' = Z.of_nat turns
       /\ 0 <= consecutive_errors s' <= 1.
Proof.
  intros Hup Hneg.
  assert (Hturn : forall s w, exists w2,
    monitor_iteration config s w
    = (Returns {| loop_count := loop_count s + 1; consecutive_errors := 1 |},
       record_event w2 (Sleep 60))).
  { intros s w0. destruct (Hup w0) as [raw_data Hraw].
    destruct (fetch_active_calls w0) as [r w1] eqn:Hf. simpl in Hraw. subst r.
    unfold monitor_iteration.
    destruct (monitor_try_fetched config s w0 w1 raw_data Hf) as [w2 ->].
    exists w2.
    destruct (time_sleep_negative (poll_interval config) w2 Hneg)
      as (e & He & ->).
    cbn [fst snd]. rewrite He. cbn.
    rewrite (time_sleep_admitted 60 w2); [done|].
    unfold SLEEP_ALWAYS_ADMITTED. lia. }
  split; [exact Hturn|].
  unfold monitor_loop.
  assert (Hgen : forall (turns : nat) (s : LoopState) (w : World),
    0 <= consecutive_errors s <= 1 ->
    exists s' w',
      monitor_loop_from turns config s w = (Running s', w')
      /\ loop_count s' = loop_count s + Z.of_nat turns
      /\ 0 <= consecutive_errors s' <= 1).
  { clear turns w. induction turns as [|turns IH]; intros s w Hs.
    - exists s, w. cbn [monitor_loop_from]. split; [done|]. split; [lia|done].
    - cbn [monitor_loop_from]. destruct (Hturn s w) as [w2 ->].
      destruct (IH {| loop_count := loop_count s + 1; consecutive_errors := 1 |}
                  (record_event w2 (Sleep 60))) as (s' & w' & -> & Hc & He).
      { cbn. lia. }
      exists s', w'. split; [done|]. cbn [loop_count] in Hc. split; [lia|done]. }
  destruct (Hgen turns LoopState_init w) as (s' & w' & E & Hc & He);
    [cbn; lia|].
  exists s', w'. split; [done|]. cbn [LoopState_init loop_count] in Hc.
  split; [lia|done].
Qed.

Lemma negative_poll_interval_polls_every_sixty_witness :
  exists s' w',
    @monitor_loop sample_library network_up 8
      (@Config_init sample_library (py "my-alerts") (py "foreland") (-5)
         None None None)
      fresh_world
    = (Running s', w')
    /\ loop_count s' = Z.of_nat 8
    /\ 0 <= consecutive_errors s' <= 1.
Proof.
  apply (@negative_poll_interval_polls_every_sixty sample_library network_up).
  - intros w. exists sample_feed. reflexivity.
  - reflexivity.
Defined.

Lemma handler_delay_nonneg (e : exn) (c : Z) : 0 <= handler_delay e c.
Proof.
  unfold handler_delay. destruct (is_request_exception e);
    [apply backoff_time_nonneg|lia].
Qed.

Lemma monitor_iteration_fetch_error `{L : Library} `{Net : Network}
  (config : Config) (s : LoopState) (w w1 : World) (e : exn) :
  fetch_active_calls w = (Raises e, w1) ->
  monitor_iteration config s w
  = if consecutive_errors s + 1 >=? max_consecutive_errors
    then (Raises e, w1)
    else (Returns {| loop_count := loop_count s + 1;
                     consecutive_errors := consecutive_errors s + 1 |},
          record_event w1
            (Sleep (handler_delay e (consecutive_errors s + 1)))).
Proof.
  intros Hf. unfold monitor_iteration, monitor_try. rewrite Hf.
  unfold handler_delay.
  destruct (is_request_exception e);
    (destruct (consecutive_errors s + 1 >=? max_consecutive_errors); [done|]).
  - by rewrite (time_sleep_admitted _ _
                  (backoff_time_bounds (consecutive_errors s + 1))).
  - rewrite (time_sleep_admitted 60 w1); [done|].
    unfold SLEEP_ALWAYS_ADMITTED. lia.
Qed.

Lemma fetch_active_calls_tracker `{Net : Network} (w w1 : World) (r : outcome pystr) :
  fetch_active_calls w = (r, w1) ->
  tracker w1 = tracker w /\ sleeps (history w1) = sleeps (history w).
Proof.
  intros H. apply (f_equal snd) in H. rewrite fetch_active_calls_world in H.
  simpl in H. subst w1. split; [done|]. apply sleeps_snoc_fetch.
Qed.

(** A turn of the loop whose fetch raises: the loop goes on after the
    handler's sleep while the counter is below the threshold, and is left
    by the exception otherwise; the tracker is untouched. *)
Lemma monitor_loop_from_erring_turn `{L : Library} `{Net : Network}
  (turns : nat) (config : Config) (s : LoopState) (w : World) :
  (forall w : World, exists e, fst (fetch_active_calls w) = Raises e) ->
  exists e w1,
    tracker w1 = tracker w
    /\ (consecutive_errors s + 1 < max_consecutive_errors ->
        sleeps (history w1)
        = sleeps (history w) ++ [handler_delay e (consecutive_errors s + 1)]
        /\ monitor_loop_from (S turns) config s w
           = monitor_loop_from turns config
               {| loop_count := loop_count s + 1;
                  consecutive_errors := consecutive_errors s + 1 |} w1)
    /\ (consecutive_errors s + 1 >= max_consecutive_errors ->
        sleeps (history w1) = sleeps (history w)
        /\ monitor_loop_from (S turns) config s w = (Stopped e, w1)).
Proof.
  intros Hdown. destruct (Hdown w) as [e He].
  destruct (fetch_active_calls w) as [r w1] eqn:Hf. simpl in He. subst r.
  destruct (fetch_active_calls_tracker w w1 _ Hf) as [Ht Hs].
  cbn [monitor_loop_from].
  rewrite (monitor_iteration_fetch_error config s w w1 e Hf), Z.geb_leb.
  destruct (Z.leb_spec max_consecutive_errors (consecutive_errors s + 1)).
  - exists e, w1. split; [done|]. split; [lia|]. by intros _.
  - exists e, (record_event w1
                 (Sleep (handler_delay e (consecutive_errors s + 1)))).
    split; [done|]. split; [|lia]. intros _. split; [|done].
    cbn [record_event history]. by rewrite sleeps_snoc_sleep, Hs.
Qed.

Lemma monitor_loop_five_erring_turns `{L : Library} `{Net : Network}
  (config : Config) (w : World) (turns : nat) :
  (forall w : World, exists e, fst (fetch_active_calls w) = Raises e) ->
  (5 <= turns)%nat ->
  exists e1 e2 e3 e4 e5 w',
    monitor_loop turns config w = (Stopped e5, w')
    /\ tracker w' = tracker w
    /\ sleeps (history w')
       = sleeps (history w)
         ++ [handler_delay e1 1; handler_delay e2 2;
             handler_delay e3 3; handler_delay e4 4].
Proof.
  intros Hdown Hturns.
  do 5 (destruct turns as [|turns]; [lia|]). clear Hturns.
  unfold monitor_loop, LoopState_init.
  destruct (monitor_loop_from_erring_turn (S (S (S (S turns)))) config
              {| loop_count := 0; consecutive_errors := 0 |} w Hdown)
    as (e1 & w1 & Ht1 & H & _).
  destruct H as [Hs1 ->]; [cbn; unfold max_consecutive_errors; lia|].
  cbn [loop_count consecutive_errors] in *.
  destruct (monitor_loop_from_erring_turn (S (S (S turns))) config
              {| loop_count := 0 + 1; consecutive_errors := 0 + 1 |} w1 Hdown)
    as (e2 & w2 & Ht2 & H & _).
  destruct H as [Hs2 ->]; [cbn; unfold max_consecutive_errors; lia|].
  cbn [loop_count consecutive_errors] in *.
  destruct (monitor_loop_from_erring_turn (S (S turns)) config
              {| loop_count := 0 + 1 + 1; consecutive_errors := 0 + 1 + 1 |}
              w2 Hdown)
    as (e3 & w3 & Ht3 & H & _).
  destruct H as [Hs3 ->]; [cbn; unfold max_consecutive_errors; lia|].
  cbn [loop_count consecutive_errors] in *.
  destruct (monitor_loop_from_erring_turn (S turns) config
              {| loop_count := 0 + 1 + 1 + 1;
                 consecutive_errors := 0 + 1 + 1 + 1 |} w3 Hdown)
    as (e4 & w4 & Ht4 & H & _).
  destruct H as [Hs4 ->]; [cbn; unfold max_consecutive_errors; lia|].
  cbn [loop_count consecutive_errors] in *.
  destruct (monitor_loop_from_erring_turn turns config
              {| loop_count := 0 + 1 + 1 + 1 + 1;
                 consecutive_errors := 0 + 1 + 1 + 1 + 1 |} w4 Hdown)
    as (e5 & w5 & Ht5 & _ & H).
  destruct H as [Hs5 ->]; [cbn; unfold max_consecutive_errors; lia|].
  exists e1, e2, e3, e4, e5, w5. split; [done|].
  split; [congruence|].
  rewrite Hs5, Hs4, Hs3, Hs2, Hs1, <- !app_assoc. reflexivity.
Qed.

Lemma monitor_loop_from_failed_turn `{L : Library} `{Net : Network}
  (turns : nat) (config : Config) (s : LoopState) (w : World) (e : exn) :
  fst (fetch_active_calls w) = Raises e ->
  (consecutive_errors s + 1 < max_consecutive_errors ->
   monitor_loop_from (S turns) config s w
   = monitor_loop_from turns config
       {| loop_count := loop_count s + 1;
          consecutive_errors := consecutive_errors s + 1 |}
       (after_failed_turn w e (consecutive_errors s + 1)))
  /\ (consecutive_errors s + 1 >= max_consecutive_errors ->
      monitor_loop_from (S turns) config s w
      = (Stopped e, snd (fetch_active_calls w))).
Proof.
  intros He.
  assert (Hf : fetch_active_calls w = (Raises e, snd (fetch_active_calls w)))
    by (rewrite <- He; apply surjective_pairing).
  cbn [monitor_loop_from].
  rewrite (monitor_iteration_fetch_error config s w _ e Hf), Z.geb_leb.
  unfold after_failed_turn.
  destruct (Z.leb_spec max_consecutive_errors (consecutive_errors s + 1));
    split; intros; (done || lia).
Qed.

Lemma after_failed_turn_effect `{Net : Network} (w : World) (e : exn) (c : Z) :
  tracker (after_failed_turn w e c) = tracker w
  /\ sleeps (history (after_failed_turn w e c))
     = sleeps (history w) ++ [handler_delay e c].
Proof.
  unfold after_failed_turn. rewrite fetch_active_calls_world.
  cbn [record_event tracker history]. split; [done|].
  by rewrite sleeps_snoc_sleep, sleeps_snoc_fetch.
Qed.

(** The error counter is shared by the two handlers. When five fetches in a
    row raise, of whatever class, the loop sleeps after each of the first
    four for a time chosen by the class of the exception that fetch raised
    (the exponential backoff of the counter after a network error, 60 after
    any other exception) and is left by the exception of the fifth fetch;
    the tracker is untouched. *)
Theorem five_failed_fetches_stop_the_loop `{L : Library} `{Net : Network}
  (config : Config) (w : World) (turns : nat) :
  (forall w : World, exists e, fst (fetch_active_calls w) = Raises e) ->
  (5 <= turns)%nat ->
  exists e1 e2 e3 e4 e5,
    let w1 := after_failed_turn w e1 1 in
    let w2 := after_failed_turn w1 e2 2 in
    let w3 := after_failed_turn w2 e3 3 in
    let w4 := after_failed_turn w3 e4 4 in
    fst (fetch_active_calls w) = Raises e1
    /\ fst (fetch_active_calls w1) = Raises e2
    /\ fst (fetch_active_calls w2) = Raises e3
    /\ fst (fetch_active_calls w3) = Raises e4
    /\ fst (fetch_active_calls w4) = Raises e5
    /\ monitor_loop turns config w = (Stopped e5, snd (fetch_active_calls w4))
    /\ tracker (snd (fetch_active_calls w4)) = tracker w
    /\ sleeps (history (snd (fetch_active_calls w4)))
       = sleeps (history w)
         ++ [handler_delay e1 1; handler_delay e2 2;
             handler_delay e3 3; handler_delay e4 4].
Proof.
  intros Hdown Hturns.
  do 5 (destruct turns as [|turns]; [lia|]). clear Hturns.
  destruct (Hdown w) as [e1 H1]. exists e1.
  destruct (Hdown (after_failed_turn w e1 1)) as [e2 H2]. exists e2.
  destruct (Hdown (after_failed_turn (after_failed_turn w e1 1) e2 2))
    as [e3 H3]. exists e3.
  destruct (Hdown (after_failed_turn
                     (after_failed_turn (after_failed_turn w e1 1) e2 2) e3 3))
    as [e4 H4]. exists e4.
  destruct (Hdown (after_failed_turn
                     (after_failed_turn
                        (after_failed_turn (after_failed_turn w e1 1) e2 2)
                        e3 3) e4 4))
    as [e5 H5]. exists e5.
  cbv zeta.
  set (w1 := after_failed_turn w e1 1) in *.
  set (w2 := after_failed_turn w1 e2 2) in *.
  set (w3 := after_failed_turn w2 e3 3) in *.
  set (w4 := after_failed_turn w3 e4 4) in *.
  do 5 (split; [done|]).
  split.
  { unfold monitor_loop, LoopState_init.
    rewrite (proj1 (monitor_loop_from_failed_turn _ config _ w e1 H1))
      by (cbn; unfold max_consecutive_errors; lia).
    cbn [loop_count consecutive_errors]. change (0 + 1) with 1. fold w1.
    rewrite (proj1 (monitor_loop_from_failed_turn _ config _ w1 e2 H2))
      by (cbn; unfold max_consecutive_errors; lia).
    cbn [loop_count consecutive_errors]. change (1 + 1) with 2. fold w2.
    rewrite (proj1 (monitor_loop_from_failed_turn _ config _ w2 e3 H3))
      by (cbn; unfold max_consecutive_errors; lia).
    cbn [loop_count consecutive_errors]. change (2 + 1) with 3. fold w3.
    rewrite (proj1 (monitor_loop_from_failed_turn _ config _ w3 e4 H4))
      by (cbn; unfold max_consecutive_errors; lia).
    cbn [loop_count consecutive_errors]. change (3 + 1) with 4. fold w4.
    by rewrite (proj2 (monitor_loop_from_failed_turn _ config _ w4 e5 H5))
      by (cbn; unfold max_consecutive_errors; lia). }
  destruct (after_failed_turn_effect w e1 1) as [T1 S1].
  destruct (after_failed_turn_effect w1 e2 2) as [T2 S2].
  destruct (after_failed_turn_effect w2 e3 3) as [T3 S3].
  destruct (after_failed_turn_effect w3 e4 4) as [T4 S4].
  fold w1 in T1, S1. fold w2 in T2, S2. fold w3 in T3, S3. fold w4 in T4, S4.
  rewrite fetch_active_calls_world. cbn [record_event tracker history].
  split; [congruence|].
  rewrite sleeps_snoc_fetch, S4, S3, S2, S1, <- !app_assoc. reflexivity.
Qed.

(** When the feed cannot be fetched, [main] exits with status 1 within five
    turns, and its final summary reports 0 notifications. *)
Theorem main_exits_when_feed_is_down `{L : Library} `{Net : Network}
  (config : Config) (turns : nat) :
  (forall w : World, exists e, fst (fetch_active_calls w) = Raises e) ->
  (5 <= turns)%nat ->
  fst (fst (main turns config)) = Some 1
  /\ snd (fst (main turns config)) = 0%nat.
Proof.
  intros Hdown Hturns. unfold main.
  destruct (monitor_loop_five_erring_turns config
              {| tracker := NotificationTracker_init; history := [] |}
              turns Hdown Hturns)
    as (e1 & e2 & e3 & e4 & e5 & w' & -> & Ht & _).
  cbn [fst snd]. by rewrite Ht.
Qed.

Example monitor_loop_network_erratic :
  sleeps (history (snd (@monitor_loop sample_library network_erratic 9
                          sample_config fresh_world)))
  = [60; 60; 120; 240]
  /\ fst (@monitor_loop sample_library network_erratic 9 sample_config
            fresh_world)
     = Stopped ConnectionError.
Proof. vm_compute. split; reflexivity. Qed.

Lemma five_failed_fetches_stop_the_loop_witness :
  exists e1 e2 e3 e4 e5,
    let w1 := @after_failed_turn network_erratic fresh_world e1 1 in
    let w2 := @after_failed_turn network_erratic w1 e2 2 in
    let w3 := @after_failed_turn network_erratic w2 e3 3 in
    let w4 := @after_failed_turn network_erratic w3 e4 4 in
    fst (@fetch_active_calls network_erratic fresh_world) = Raises e1
    /\ fst (@fetch_active_calls network_erratic w1) = Raises e2
    /\ fst (@fetch_active_calls network_erratic w2) = Raises e3
    /\ fst (@fetch_active_calls network_erratic w3) = Raises e4
    /\ fst (@fetch_active_calls network_erratic w4) = Raises e5
    /\ @monitor_loop sample_library network_erratic 9 sample_config fresh_world
       = (Stopped e5, snd (@fetch_active_calls network_erratic w4))
    /\ tracker (snd (@fetch_active_calls network_erratic w4))
       = tracker fresh_world
    /\ sleeps (history (snd (@fetch_active_calls network_erratic w4)))
       = sleeps (history fresh_world)
         ++ [handler_delay e1 1; handler_delay e2 2;
             handler_delay e3 3; handler_delay e4 4].
Proof.
  apply (@five_failed_fetches_stop_the_loop sample_library network_erratic).
  - intros w. unfold fetch_active_calls. simpl.
    destruct (history w); eexists; reflexivity.
  - lia.
Defined.

Lemma main_exits_when_feed_is_down_witness :
  fst (fst (@main sample_library network_down 7 sample_config)) = Some 1
  /\ snd (fst (@main sample_library network_down 7 sample_config)) = 0%nat.
Proof.
  apply (@main_exits_when_feed_is_down sample_library network_down).
  - intros w. exists ConnectionError. reflexivity.
  - lia.
Defined.

Example huge_poll_interval_turn :
  fst (@monitor_iteration sample_library network_up
         (@Config_init sample_library (py "my-alerts") (py "foreland")
            10000000000 None None None)
         LoopState_init fresh_world)
  = Returns {| loop_count := 1; consecutive_errors := 1 |}
  /\ sleeps (history (snd (@monitor_iteration sample_library network_up
                            (@Config_init sample_library (py "my-alerts")
                               (py "foreland") 10000000000 None None None)
                            LoopState_init fresh_world)))
     = [60].
Proof. vm_compute. split; reflexivity. Qed.
